(** * scrapdf: HTML-to-text extraction, line cleaning, archive naming and
    the crawl callback of [internal/scraper/scraper.go], embedded in Rocq.

    Go strings are byte sequences; they are modelled as [string] (a list of
    8-bit [ascii] bytes).  String literals of the source that hold non-ASCII
    text (the bullet) are therefore their UTF-8 bytes, as in Go. *)

From Stdlib Require Import Ascii String NArith Lia.
From stdpp Require Import gmap strings list.

Set Warnings "-register-all".

Local Open Scope N_scope.
Local Open Scope nat_scope.
Local Open Scope stdpp_scope.

(* ===================================================================== *)
(** ** The functions of Go's [strings] package that the scraper calls *)
(* ===================================================================== *)

Module GoStrings.

Definition code (a : ascii) : N := N_of_ascii a.

(** One line feed, ["\n"]. *)
Definition nl : string := String (ascii_of_N 10) "".

(** [unicode.IsSpace] on the one-byte runes: '\t' '\n' '\v' '\f' '\r' ' '. *)
Definition asciiSpace (a : ascii) : bool :=
  match code a with
  | 9%N | 10%N | 11%N | 12%N | 13%N | 32%N => true
  | _ => false
  end.

(** [unicode.IsSpace] on the two-byte runes: U+0085 (C2 85), U+00A0 (C2 A0). *)
Definition space2 (a b : ascii) : bool :=
  (code a =? 0xC2)%N && ((code b =? 0x85)%N || (code b =? 0xA0)%N).

(** [unicode.IsSpace] on the three-byte runes: U+1680 (E1 9A 80),
    U+2000..U+200A (E2 80 80 .. E2 80 8A), U+2028, U+2029, U+202F
    (E2 80 A8, A9, AF), U+205F (E2 81 9F), U+3000 (E3 80 80). *)
Definition space3 (a b c : ascii) : bool :=
  ((code a =? 0xE1)%N && (code b =? 0x9A)%N && (code c =? 0x80)%N)
  || ((code a =? 0xE2)%N && (code b =? 0x80)%N &&
      (((0x80 <=? code c)%N && (code c <=? 0x8A)%N)
       || (code c =? 0xA8)%N || (code c =? 0xA9)%N || (code c =? 0xAF)%N))
  || ((code a =? 0xE2)%N && (code b =? 0x81)%N && (code c =? 0x9F)%N)
  || ((code a =? 0xE3)%N && (code b =? 0x80)%N && (code c =? 0x80)%N).

(** [utf8.DecodeRuneInString] followed by [unicode.IsSpace]: the byte width
    of the white-space rune [s] starts with, 0 when it starts with none.
    The bytes after the first of a multi-byte rune are continuation bytes
    (80..BF) and no white-space encoding starts with one, so testing the
    encodings at a byte offset agrees with Go's rune-by-rune scan. *)
Definition spaceAt (s : string) : nat :=
  match s with
  | String a r =>
      if asciiSpace a then 1 else
      match r with
      | String b r' =>
          if space2 a b then 2 else
          match r' with
          | String c _ => if space3 a b c then 3 else 0
          | _ => 0
          end
      | _ => 0
      end
  | _ => 0
  end.

(** [utf8.DecodeLastRuneInString] followed by [unicode.IsSpace], on the
    reversed string: the bytes of the last rune come first, last byte
    first. *)
Definition spaceBefore (r : string) : nat :=
  match r with
  | String a r1 =>
      if asciiSpace a then 1 else
      match r1 with
      | String b r2 =>
          if space2 b a then 2 else
          match r2 with
          | String c _ => if space3 c b a then 3 else 0
          | _ => 0
          end
      | _ => 0
      end
  | _ => 0
  end.

(** Drops runes from the front of [s] while [width] finds one; [skip]
    counts the bytes of the current rune still to drop. *)
Fixpoint dropRunes (width : string -> nat) (skip : nat) (s : string) : string :=
  match s with
  | "" => ""
  | String a r =>
      match skip with
      | S k => dropRunes width k r
      | 0 =>
          match width s with
          | 0 => s
          | S w => dropRunes width w r
          end
      end
  end.

Fixpoint rev_app (s acc : string) : string :=
  match s with
  | "" => acc
  | String a r => rev_app r (String a acc)
  end.

Definition srev (s : string) : string := rev_app s "".

(** [strings.TrimLeftFunc(s, unicode.IsSpace)]. *)
Definition TrimLeftSpace (s : string) : string := dropRunes spaceAt 0 s.

(** [strings.TrimRightFunc(s, unicode.IsSpace)]. *)
Definition TrimRightSpace (s : string) : string :=
  srev (dropRunes spaceBefore 0 (srev s)).

(** [strings.TrimSpace]: leading, then trailing white space. *)
Definition TrimSpace (s : string) : string := TrimRightSpace (TrimLeftSpace s).

(** [strings.HasPrefix]. *)
Definition HasPrefix (s pre : string) : bool := String.prefix pre s.

(** [strings.HasSuffix]:
    [len(s) >= len(suffix) && s[len(s)-len(suffix):] == suffix]. *)
Definition HasSuffix (s suffix : string) : bool :=
  (String.length suffix <=? String.length s) &&
  String.eqb
    (String.substring (String.length s - String.length suffix)
                      (String.length suffix) s)
    suffix.

(** [strings.ReplaceAll(s, old, new)] for a non-empty [old] (all call sites):
    the non-overlapping occurrences of [old], leftmost first, become [new]. *)
Fixpoint replaceGo (old new : string) (skip : nat) (s : string) : string :=
  match s with
  | "" => ""
  | String a r =>
      match skip with
      | S k => replaceGo old new k r
      | 0 =>
          if String.prefix old s
          then new +:+ replaceGo old new (String.length old - 1) r
          else String a (replaceGo old new 0 r)
      end
  end.

Definition ReplaceAll (s old new : string) : string := replaceGo old new 0 s.

(** [strings.Split(s, sep)] for a non-empty [sep] (all call sites). *)
Fixpoint splitGo (sep : string) (skip : nat) (cur : string) (s : string)
  : list string :=
  match s with
  | "" => [cur]
  | String a r =>
      match skip with
      | S k => splitGo sep k cur r
      | 0 =>
          if String.prefix sep s
          then cur :: splitGo sep (String.length sep - 1) "" r
          else splitGo sep 0 (cur +:+ String a "") r
      end
  end.

Definition Split (s sep : string) : list string := splitGo sep 0 "" s.

(** [strings.Join(elems, sep)]. *)
Fixpoint Join (elems : list string) (sep : string) : string :=
  match elems with
  | [] => ""
  | [e] => e
  | e :: rest => e +:+ sep +:+ Join rest sep
  end.

(** [strings.Fields]: the maximal runs of non-white-space runes. *)
Definition flush (cur : string) (fs : list string) : list string :=
  if decide (cur = "") then fs else cur :: fs.

Fixpoint fieldsGo (skip : nat) (cur : string) (s : string) : list string :=
  match s with
  | "" => flush cur []
  | String a r =>
      match skip with
      | S k => fieldsGo k cur r
      | 0 =>
          match spaceAt s with
          | 0 => fieldsGo 0 (cur +:+ String a "") r
          | S w => flush cur (fieldsGo w "" r)
          end
      end
  end.

Definition Fields (s : string) : list string := fieldsGo 0 "" s.

(** [strings.Trim(s, cutset)] for a cutset of one ASCII byte [c] (all call
    sites): Go takes the byte-wise path
    [trimLeftByte(trimRightByte(s, c), c)]. *)
Fixpoint trimLeftByte (c : ascii) (s : string) : string :=
  match s with
  | String a r => if Ascii.eqb a c then trimLeftByte c r else s
  | "" => ""
  end.

Definition trimRightByte (c : ascii) (s : string) : string :=
  srev (trimLeftByte c (srev s)).

Definition Trim (s : string) (c : ascii) : string :=
  trimLeftByte c (trimRightByte c s).

End GoStrings.

Import GoStrings.

(* ===================================================================== *)
(** ** The parsed document tree ([golang.org/x/net/html].Node) *)
(* ===================================================================== *)

Module Html.

Inductive NodeType :=
| ErrorNode | TextNode | DocumentNode | ElementNode
| CommentNode | DoctypeNode | RawNode.

#[global] Instance NodeType_eq_dec : EqDecision NodeType.
Proof. solve_decision. Defined.

(** A node owns its children in document order ([FirstChild] and the
    [NextSibling] chain). *)
Inductive Node := mkNode (ty : NodeType) (data : string) (children : list Node).

Definition Type_ (n : Node) : NodeType := let 'mkNode ty _ _ := n in ty.
Definition Data (n : Node) : string := let 'mkNode _ d _ := n in d.
Definition Children (n : Node) : list Node := let 'mkNode _ _ cs := n in cs.

(** What [extractText] reads through a node's [Parent] pointer:
    [n.Parent.Data], [n.Parent.Parent] (nil or its [Data]) and whether
    [n.Parent.NextSibling] is non-nil. *)
Record Parent := mkParent {
  pData : string;
  pParentData : option string;
  pHasNext : bool
}.

Definition Element (tag : string) (cs : list Node) : Node := mkNode ElementNode tag cs.
Definition Text (d : string) : Node := mkNode TextNode d [].
Definition Comment (d : string) : Node := mkNode CommentNode d [].
Definition Document (cs : list Node) : Node := mkNode DocumentNode "" cs.

(** The tree [html.Parse] builds around body content [cs] when the input has
    no head content: Document > html > (head, body > cs). *)
Definition page (cs : list Node) : Node :=
  Document [Element "html" [Element "head" []; Element "body" cs]].

End Html.

Import Html.

(* ===================================================================== *)
(** ** [stripHTMLTags] *)
(* ===================================================================== *)

Module Extract.

(** The variables the closure [extractText] captures. *)
Record Walk := mkWalk {
  textBuilder : string;
  lastNodeWasBlock : bool;
  lastNodeWasText : bool
}.

Definition initWalk : Walk := mkWalk "" false false.

Definition WriteString (s : string) (w : Walk) : Walk :=
  mkWalk (textBuilder w +:+ s) (lastNodeWasBlock w) (lastNodeWasText w).

Definition setFlags (blk txt : bool) (w : Walk) : Walk :=
  mkWalk (textBuilder w) blk txt.

Definition member (d : string) (l : list string) : bool := bool_decide (d ∈ l).

Definition stylingTagList : list string :=
  ["strong"; "b"; "em"; "i"; "u"; "span"; "mark"; "small"; "sub"; "sup"; "code"].

(** The map [stylingTags]; a missing key reads as false. *)
Definition stylingTags (d : string) : bool := member d stylingTagList.

Definition suppressedTagList : list string :=
  ["script"; "style"; "meta"; "link"; "noscript"].

(** The guard of the first [return] of [extractText]. *)
Definition suppressed (ty : NodeType) (d : string) : bool :=
  bool_decide (ty = CommentNode)
  || (bool_decide (ty = ElementNode) && member d suppressedTagList).

Definition headingTagList : list string := ["h1"; "h2"; "h3"; "h4"; "h5"; "h6"].

(** The bullet prefix of list items: U+2022 and a space. *)
Definition bullet : string := "• ".

(** The trimmed text of a Text node with data [d] under parent [par]. *)
Definition trimmedText (par : option Parent) (d : string) : string :=
  match par with
  | Some p => if stylingTags (pData p) then TrimRightSpace d else TrimSpace d
  | None => TrimSpace d
  end.

(** The [switch n.Parent.Data] of [extractText], for non-empty [text]. *)
Definition emit (par : option Parent) (text : string) (w : Walk) : Walk :=
  match par with
  | Some p =>
      if decide (pData p = "p") then
        setFlags true false (WriteString (nl +:+ nl) (WriteString text w))
      else if decide (pData p = "li") then
        setFlags false false
          (WriteString nl (WriteString text (WriteString bullet w)))
      else if member (pData p) headingTagList then
        let w1 := if lastNodeWasBlock w then w else WriteString nl w in
        setFlags true false (WriteString (nl +:+ nl) (WriteString text w1))
      else if decide (pData p = "a") then
        let w1 := if lastNodeWasText w then WriteString nl w else w in
        let w2 := WriteString text w1 in
        let w3 :=
          if bool_decide (pParentData p = Some "nav") && negb (pHasNext p)
          then WriteString nl w2 else w2 in
        setFlags false true w3
      else
        let w1 := if lastNodeWasText w then WriteString " " w else w in
        setFlags false true (WriteString text w1)
  | None =>
      let w1 := if lastNodeWasText w then WriteString " " w else w in
      let w2 := WriteString text w1 in
      mkWalk (textBuilder w2) (lastNodeWasBlock w2) true
  end.

(** The [if n.Type == html.TextNode] block. *)
Definition visitText (par : option Parent) (d : string) (w : Walk) : Walk :=
  let text := trimmedText par d in
  if decide (text = "") then w else emit par text w.

(** [for c := n.FirstChild; c != nil; c = c.NextSibling { f(c) }]; [f] is
    told whether [c.NextSibling] is non-nil. *)
Definition forChildren {A} (f : bool -> A -> Walk -> Walk)
  : list A -> Walk -> Walk :=
  fix go (cs : list A) (w : Walk) : Walk :=
    match cs with
    | [] => w
    | c :: rest =>
        go rest (f (match rest with [] => false | _ => true end) c w)
    end.

(** What the children of a node see through their [Parent] pointer. *)
Definition asParent (par : option Parent) (hasNext : bool) (d : string) : Parent :=
  mkParent d (pData <$> par) hasNext.

(** The closure [extractText]; [par] and [hasNext] are [n.Parent] and
    [n.NextSibling != nil]. *)
Fixpoint extractText (par : option Parent) (hasNext : bool) (n : Node)
    (w : Walk) {struct n} : Walk :=
  match n with
  | mkNode ty d cs =>
      if suppressed ty d then w
      else
        let me := Some (asParent par hasNext d) in
        if bool_decide (ty = ElementNode) && stylingTags d then
          forChildren (extractText me) cs w
        else
          let w1 :=
            if bool_decide (ty = TextNode) then visitText par d w else w in
          forChildren (extractText me) cs w1
  end.

(** The clean-up after the walk. *)
Definition finish (built : string) : string :=
  let content := ReplaceAll built (nl +:+ nl +:+ nl) (nl +:+ nl) in
  let content := TrimSpace content in
  if negb (HasSuffix content (nl +:+ nl)) && negb (String.eqb content "") then
    if HasSuffix content nl then content +:+ nl else content +:+ nl +:+ nl
  else content.

(** [stripHTMLTags] from the parsed document on. *)
Definition stripParsed (doc : Node) : string :=
  finish (textBuilder (extractText None false doc initWalk)).

(** [stripHTMLTags]; [html_Parse] is [html.Parse], [None] its error. *)
Definition stripHTMLTags (html_Parse : string -> option Node)
    (htmlContent : string) : option string :=
  match html_Parse htmlContent with
  | None => None
  | Some doc => Some (stripParsed doc)
  end.

End Extract.

Import Extract.

(* ===================================================================== *)
(** ** The scraper: [createPDF], the response callback, [createZip],
       [ScrapeAndSave] *)
(* ===================================================================== *)

Module Scrape.

(** The fields of [url.URL] the scraper reads. *)
Record URL := mkURL {
  Scheme : string;
  Host : string;
  Path : string;
  RawQuery : string
}.

(** [colly.Response]: [r.Request.URL] and [r.Body]. *)
Record Response := mkResponse {
  Request_URL : URL;
  Body : string
}.

(** The calls that reach the file system or the network.  [Printf] output is
    not modelled. *)
Inductive Op :=
| MkdirAll (dir : string)
| MkdirTemp
| RemoveAll (dir : string)
| OutputFileAndClose (filename : string) (cells : list string)
| Remove (filename : string)
| Create (zipname : string)
| Open (pdfPath : string)
| ZipCreate (entry : string)
| Copy (entry pdfPath : string).

Definition Trace := list Op.

(** The collaborators outside the repository.  [succeeds] tells, from the
    calls made so far, whether a call returns a nil error. *)
Record Env := mkEnv {
  url_Parse : string -> option URL;          (* net/url.Parse *)
  url_String : URL -> string;                (* the String method of url.URL *)
  html_Parse : string -> option Node;        (* html.Parse *)
  filepath_Dir : string -> string;           (* filepath.Dir *)
  path_Join : string -> string -> string;    (* path.Join *)
  succeeds : Trace -> Op -> bool;
  tempDir : Trace -> string;                 (* the name os.MkdirTemp returns *)
  (* c.Visit(startURL) with the collector's settings: the responses handed
     to OnResponse, in order, and whether Visit returns a nil error *)
  colly_Visit : string -> string -> list Response * bool;
  (* the order in which [range] yields the entries of a map *)
  rangeOrder : gmap string string -> list (string * string)
}.

Definition perform (E : Env) (op : Op) (t : Trace) : bool * Trace :=
  (succeeds E t op, t ++ [op]).

Inductive Error :=
| ErrInvalidURL
| ErrOutputDir
| ErrTempDir
| ErrStartScraping
| ErrNoPages
| ErrStripHTML
| ErrPDFOutput
| ErrZipFile
| ErrZipParseURL (urlStr : string)
| ErrZipOpen
| ErrZipEntry
| ErrZipWrite
| ErrCreateZip (cause : Error).

Inductive result := Ok | Err (e : Error).

Record Scraper := mkScraper {
  visited : gset string;
  pdfs : gmap string string;
  stripHTML : bool;
  clean : bool
}.

Definition NewScraper (stripHTML clean : bool) : Scraper :=
  let clean := if clean && negb stripHTML then false else clean in
  mkScraper ∅ ∅ stripHTML clean.

(** *** [createPDF] *)

(** The body of the clean-mode loop: the lines appended to [cleanedLines]. *)
Definition cleanStep (cleanedLines : list string) (line : string) : list string :=
  let trimmed := TrimSpace line in
  if decide (trimmed = "") then cleanedLines ++ [line]
  else
    let words := Fields trimmed in
    if 2 <? length words then cleanedLines ++ [line] else cleanedLines.

Definition cleanContent (content : string) : string :=
  let lines := Split content nl in
  Join (foldl cleanStep [] lines) nl.

(** The final loop: the lines handed to [pdf.MultiCell], in order. *)
Definition cellStep (cells : list string) (line : string) : list string :=
  let line := TrimSpace line in
  if decide (line = "") then cells else cells ++ [line].

Definition pdfCells (content : string) : list string :=
  foldl cellStep [] (Split content nl).

(** The value of [content] when the final loop starts; [None] when
    [stripHTMLTags] fails. *)
Definition pdfContent (E : Env) (s : Scraper) (htmlContent : string)
  : option string :=
  if stripHTML s then
    match stripHTMLTags (html_Parse E) htmlContent with
    | None => None
    | Some content =>
        if clean s then Some (cleanContent content) else Some content
    end
  else Some htmlContent.

Definition createPDF (E : Env) (s : Scraper) (filename htmlContent : string)
    (t : Trace) : result * Trace :=
  match pdfContent E s htmlContent with
  | None => (Err ErrStripHTML, t)
  | Some content =>
      let '(ok, t1) := perform E (OutputFileAndClose filename (pdfCells content)) t in
      if ok then (Ok, t1) else (Err ErrPDFOutput, t1)
  end.

(** *** Names derived from a URL *)

(** The four lines that turn [URL.Path] into a file-name part. *)
Definition sanitizePath (urlPath : string) : string :=
  let urlPath :=
    if decide (urlPath = "" ∨ urlPath = "/") then "index" else urlPath in
  let urlPath := Trim urlPath "/" in
  ReplaceAll urlPath "/" "_".

(** [fmt.Sprintf("%s_%s.pdf", host, urlPath)]. *)
Definition pdfName (u : URL) : string :=
  Host u +:+ "_" +:+ sanitizePath (Path u) +:+ ".pdf".

(** *** The [OnResponse] callback *)

Definition onResponse (E : Env) (tmpDir : string) (r : Response)
    (st : Scraper * Trace) : Scraper * Trace :=
  let '(s, t) := st in
  let key := url_String E (Request_URL r) in
  (* visited.LoadOrStore(key, true) *)
  if decide (key ∈ visited s) then (s, t)
  else
    let s := mkScraper ({[key]} ∪ visited s) (pdfs s) (stripHTML s) (clean s) in
    let filename := path_Join E tmpDir (pdfName (Request_URL r)) in
    match createPDF E s filename (Body r) t with
    | (Err _, t1) =>
        let '(_, t2) := perform E (Remove filename) t1 in (s, t2)
    | (Ok, t1) =>
        (mkScraper (visited s) (<[key := filename]> (pdfs s))
                   (stripHTML s) (clean s), t1)
    end.

(** *** [createZip] *)

(** An entry of the archive: its name and the file copied into it. *)
Abbreviation ZipEntry := (string * string)%type.

Fixpoint zipLoop (E : Env) (kvs : list (string * string))
    (archive : list ZipEntry) (t : Trace) : result * list ZipEntry * Trace :=
  match kvs with
  | [] => (Ok, archive, t)
  | (urlStr, pdfPath) :: rest =>
      match url_Parse E urlStr with
      | None => (Err (ErrZipParseURL urlStr), archive, t)
      | Some parsedURL =>
          let zipEntryName := pdfName parsedURL in
          let '(ok, t) := perform E (Open pdfPath) t in
          if negb ok then (Err ErrZipOpen, archive, t) else
          let '(ok, t) := perform E (ZipCreate zipEntryName) t in
          if negb ok then (Err ErrZipEntry, archive, t) else
          let archive := archive ++ [(zipEntryName, pdfPath)] in
          let '(ok, t) := perform E (Copy zipEntryName pdfPath) t in
          if negb ok then (Err ErrZipWrite, archive, t) else
          zipLoop E rest archive t
      end
  end.

Definition createZip (E : Env) (s : Scraper) (zipname : string) (t : Trace)
  : result * list ZipEntry * Trace :=
  let '(ok, t) := perform E (Create zipname) t in
  if negb ok then (Err ErrZipFile, [], t)
  else zipLoop E (rangeOrder E (pdfs s)) [] t.

(** *** [ScrapeAndSave] *)

Definition ScrapeAndSave (E : Env) (s : Scraper) (startURL outputPath : string)
    (t : Trace) : result * Scraper * Trace :=
  match url_Parse E startURL with
  | None => (Err ErrInvalidURL, s, t)
  | Some parsedURL =>
      let outputDir := filepath_Dir E outputPath in
      let '(ok, t) := perform E (MkdirAll outputDir) t in
      if negb ok then (Err ErrOutputDir, s, t) else
      let tmpDir := tempDir E t in
      let '(ok, t) := perform E MkdirTemp t in
      if negb ok then (Err ErrTempDir, s, t) else
      (* from here on the deferred os.RemoveAll(tmpDir) runs on return *)
      let finally (r : result) (s : Scraper) (t : Trace) :=
        (r, s, snd (perform E (RemoveAll tmpDir) t)) in
      let '(responses, started) := colly_Visit E startURL (Host parsedURL) in
      let '(s, t) := foldl (fun st r => onResponse E tmpDir r st) (s, t) responses in
      if negb started then finally (Err ErrStartScraping) s t else
      if 0 <? size (pdfs s) then
        match createZip E s outputPath t with
        | (Err e, _, t) => finally (Err (ErrCreateZip e)) s t
        | (Ok, _, t) => finally Ok s t
        end
      else finally (Err ErrNoPages) s t
  end.

End Scrape.

Import Scrape.

(* ===================================================================== *)
(** ** Response callbacks dispatched concurrently *)
(* ===================================================================== *)

Module Concurrent.

(** The collector of l.67 is built without [colly.Async], so as the
    program stands the callbacks run one after the other, which is
    [crawl].  This module is the concurrent dispatch the design text
    speaks of: the same callback, its calls interleaved step by step. *)

(** Where a running call of the [OnResponse] callback stands.  The three
    ways it returns are kept apart: at the [LoadOrStore] guard, after a
    failed [createPDF], and at the end of the function.  The assignment
    [s.pdfs[url] = filename] is not atomic: a call is inside it from
    [Writing] until it is [Done]. *)
Inductive Stage :=
| AtGate                          (* before visited.LoadOrStore *)
| Rendering (filename : string)   (* before s.createPDF *)
| Recording (filename : string)   (* before s.pdfs[url] = filename *)
| Writing (filename : string)     (* inside s.pdfs[url] = filename *)
| Skipped
| Failed
| Done.

Record Call := mkCall {
  response : Response;
  stage : Stage
}.

(** [s.pdfs] is a plain map, written without a lock.  As long as no two
    calls have been inside the assignment at once it is the map [m]; once
    two writes have overlapped Go defines nothing about it (the runtime may
    stop the program with "concurrent map writes"), and nothing is kept of
    its content. *)
Inductive PdfMap :=
| Intact (m : gmap string string)
| Raced.

Definition assign (k f : string) (P : PdfMap) : PdfMap :=
  match P with
  | Intact m => Intact (<[k := f]> m)
  | Raced => Raced
  end.

(** The state the calls share, and two logs: the keys [createPDF] was
    called for and the keys whose write to [pdfs] has completed, oldest
    first. *)
Record Config := mkConfig {
  visitedSet : gset string;
  pdfMap : PdfMap;
  calls : list Call;
  rendered : list string;
  recorded : list string
}.

Definition key (E : Env) (c : Call) : string :=
  url_String E (Request_URL (response c)).

Definition move (i : nat) (c : Call) (st : Stage) (cs : list Call) : list Call :=
  <[i := mkCall (response c) st]> cs.

(** No call is inside the assignment to [s.pdfs]. *)
Definition noWriter (cs : list Call) : Prop :=
  Forall (fun cl => forall g, stage cl <> Writing g) cs.

(** One step of one call.  [LoadOrStore] is a single step, as [sync.Map]
    provides it.  Whether [createPDF] fails is up to the file system.  A
    call that enters the assignment to [s.pdfs] while another call is
    inside it races with that call.  A program the runtime stops is a run
    that takes no further step. *)
Inductive step (E : Env) (tmpDir : string) : Config -> Config -> Prop :=
| step_seen i c V P cs rn rc :
    cs !! i = Some c -> stage c = AtGate -> key E c ∈ V ->
    step E tmpDir (mkConfig V P cs rn rc)
                  (mkConfig V P (move i c Skipped cs) rn rc)
| step_store i c V P cs rn rc :
    cs !! i = Some c -> stage c = AtGate -> key E c ∉ V ->
    step E tmpDir
      (mkConfig V P cs rn rc)
      (mkConfig ({[key E c]} ∪ V) P
         (move i c
            (Rendering (path_Join E tmpDir (pdfName (Request_URL (response c)))))
            cs)
         rn rc)
| step_render_ok i c f V P cs rn rc :
    cs !! i = Some c -> stage c = Rendering f ->
    step E tmpDir (mkConfig V P cs rn rc)
                  (mkConfig V P (move i c (Recording f) cs) (rn ++ [key E c]) rc)
| step_render_fail i c f V P cs rn rc :
    cs !! i = Some c -> stage c = Rendering f ->
    step E tmpDir (mkConfig V P cs rn rc)
                  (mkConfig V P (move i c Failed cs) (rn ++ [key E c]) rc)
| step_write_alone i c f V P cs rn rc :
    cs !! i = Some c -> stage c = Recording f -> noWriter cs ->
    step E tmpDir (mkConfig V P cs rn rc)
                  (mkConfig V P (move i c (Writing f) cs) rn rc)
| step_write_race i c f j cj g V P cs rn rc :
    cs !! i = Some c -> stage c = Recording f ->
    cs !! j = Some cj -> stage cj = Writing g ->
    step E tmpDir (mkConfig V P cs rn rc)
                  (mkConfig V Raced (move i c (Writing f) cs) rn rc)
| step_write_end i c f V P cs rn rc :
    cs !! i = Some c -> stage c = Writing f ->
    step E tmpDir (mkConfig V P cs rn rc)
                  (mkConfig V (assign (key E c) f P) (move i c Done cs)
                            rn (rc ++ [key E c])).

(** All callbacks about to run on a new scraper. *)
Definition start (rs : list Response) : Config :=
  mkConfig ∅ (Intact ∅) ((fun r => mkCall r AtGate) <$> rs) [] [].

(** The call went through the [LoadOrStore] guard. *)
Definition passed (c : Call) : Prop :=
  match stage c with
  | AtGate | Skipped => False
  | _ => True
  end.

(** [createPDF] has been called. *)
Definition afterRender (c : Call) : Prop :=
  match stage c with
  | Recording _ | Writing _ | Failed | Done => True
  | _ => False
  end.

(** What holds of every configuration the calls can reach. *)
Record Inv (E : Env) (c : Config) : Prop := mkInv {
  inv_gate : forall i cl,
    calls c !! i = Some cl -> stage cl <> AtGate -> key E cl ∈ visitedSet c;
  inv_owner : forall u,
    u ∈ visitedSet c ->
    exists i cl, calls c !! i = Some cl /\ passed cl /\ key E cl = u;
  inv_unique : forall i j ci cj,
    calls c !! i = Some ci -> calls c !! j = Some cj ->
    passed ci -> passed cj -> key E ci = key E cj -> i = j;
  inv_rendered : forall u,
    u ∈ rendered c <->
    exists i cl, calls c !! i = Some cl /\ afterRender cl /\ key E cl = u;
  inv_rendered_nodup : NoDup (rendered c);
  inv_recorded : forall u,
    u ∈ recorded c <->
    exists i cl, calls c !! i = Some cl /\ stage cl = Done /\ key E cl = u;
  inv_recorded_nodup : NoDup (recorded c);
  inv_pdfs : forall m,
    pdfMap c = Intact m -> forall u, is_Some (m !! u) <-> u ∈ recorded c;
  inv_one_writer : forall m,
    pdfMap c = Intact m ->
    forall i j ci cj f g,
      calls c !! i = Some ci -> calls c !! j = Some cj ->
      stage ci = Writing f -> stage cj = Writing g -> i = j;
  inv_raced :
    pdfMap c = Raced ->
    exists i j ci cj,
      i <> j /\ calls c !! i = Some ci /\ calls c !! j = Some cj /\
      passed ci /\ passed cj
}.

(** Every call has returned. *)
Definition finished (c : Config) : Prop :=
  forall i cl, calls c !! i = Some cl ->
    stage cl = Skipped \/ stage cl = Failed \/ stage cl = Done.

End Concurrent.

(* ===================================================================== *)
(** ** Notions the statements below need *)
(* ===================================================================== *)

Module Notions.

(** The reading the design text gives of styling elements: the tree with
    every styling element replaced, in place, by its children. *)
Fixpoint splice (n : Node) : list Node :=
  match n with
  | mkNode ty d cs =>
      let cs' := flat_map splice cs in
      if bool_decide (ty = ElementNode) && stylingTags d then cs'
      else [mkNode ty d cs']
  end.

Definition spliced (doc : Node) : Node :=
  match splice doc with
  | [d] => d
  | _ => doc
  end.

(** A text that is all white space: both trimmings leave nothing. *)
Definition blank (d : string) : bool :=
  bool_decide (TrimSpace d = "") && bool_decide (TrimRightSpace d = "").

(** A tree in which every Text node outside the suppressed subtrees is
    blank: a document that holds only suppressed elements and comments,
    inside whatever elements hold them. *)
Fixpoint onlySuppressed (n : Node) : bool :=
  match n with
  | mkNode ty d cs =>
      suppressed ty d
      || ((negb (bool_decide (ty = TextNode)) || blank d)
          && forallb onlySuppressed cs)
  end.

(** The default case of the switch on the parent's tag: what a Text node
    is formatted with when that tag is none of p, li, h1..h6, a. *)
Definition inlineText (text : string) (w : Walk) : Walk :=
  setFlags false true
    (WriteString text (if lastNodeWasText w then WriteString " " w else w)).

(** The row of the per-element table for [a]: a line feed if the last
    emission was inline text, the trimmed text, a line feed if [trailing];
    the condition of the trailing line feed is left to the statement. *)
Definition anchorEmission (trailing : bool) (txt : string) (w : Walk) : Walk :=
  mkWalk (textBuilder w
            +:+ (if lastNodeWasText w then nl else "")
            +:+ TrimSpace txt
            +:+ (if trailing then nl else ""))
         false true.

(** The node has a next sibling: the list of its later siblings is not
    empty. *)
Definition hasMore {A} (later : list A) : bool :=
  match later with [] => false | _ => true end.

(** The last byte of a string. *)
Fixpoint lastByte (s : string) : option ascii :=
  match s with
  | "" => None
  | String a "" => Some a
  | String _ r => lastByte r
  end.

(** The number of white-space-delimited words of a line, as clean mode
    counts them. *)
Definition wordCount (line : string) : nat := length (Fields (TrimSpace line)).

(** Clean mode keeps a line when it is blank or has more than two words. *)
Definition keepLine (line : string) : bool :=
  bool_decide (TrimSpace line = "") || (2 <? wordCount line).

(** The filter as the design text words it: empty lines are preserved,
    non-empty lines are kept when they have three words or more. *)
Definition keepLineAsStated (line : string) : bool :=
  bool_decide (line = "") || (2 <? wordCount line).

Fixpoint mapBytes (f : ascii -> ascii) (s : string) : string :=
  match s with
  | "" => ""
  | String a r => String (f a) (mapBytes f r)
  end.

Definition slash : ascii := "/"%char.
Definition underscore : ascii := "_"%char.

Definition slashToUnderscore (a : ascii) : ascii :=
  if Ascii.eqb a slash then underscore else a.

Fixpoint repeatByte (c : ascii) (n : nat) : string :=
  match n with
  | 0 => ""
  | S k => String c (repeatByte c k)
  end.

End Notions.

Import Concurrent Notions.

(* ===================================================================== *)
(** ** A concrete environment, for instances of the statements below *)
(* ===================================================================== *)

Module Sample.

Definition urlA : URL := mkURL "http" "example.com" "/a" "".
Definition urlAq : URL := mkURL "http" "example.com" "/a" "x=1".
Definition urlRoot : URL := mkURL "http" "example.com" "/" "".

Definition parse (s : string) : option URL :=
  if decide (s = "http://example.com/a") then Some urlA
  else if decide (s = "http://example.com/a?x=1") then Some urlAq
  else if decide (s = "http://example.com/") then Some urlRoot
  else None.

Definition render (u : URL) : string :=
  Scheme u +:+ "://" +:+ Host u +:+ Path u
  +:+ (if decide (RawQuery u = "") then "" else "?" +:+ RawQuery u).

(** The white-space Text node between the tags of an indented source. *)
Definition ws : Node := Text (nl +:+ "    ").

Definition doc : Node :=
  page [Element "h1" [Text "T"]; Element "p" [Text "C"]].

Definition quietDoc : Node :=
  Document [Comment " c ";
            Element "html" [
              Element "head" [Element "script" [Text "alert(1);"];
                              Text (nl +:+ "  ");
                              Element "style" [Text "p { color: red }"];
                              Element "noscript" [Element "p" [Text "x"]]];
              Element "body" []]].

(** Every call succeeds; the crawl hands over [responses]. *)
Definition env (responses : list Response) : Env :=
  mkEnv parse render (fun _ => Some doc)
        (fun _ => "out") (fun d f => d +:+ "/" +:+ f)
        (fun _ _ => true) (fun _ => "/tmp/webscraper1")
        (fun _ _ => (responses, true))
        map_to_list.

Definition rootResponse : Response := mkResponse urlRoot "<h1>T</h1><p>C</p>".
Definition pageA : Response := mkResponse urlA "<h1>T</h1><p>C</p>".

(** Two callbacks for the same URL, after the first has recorded its
    artifact and the second has returned at the guard. *)
Definition ranTwice : Config :=
  mkConfig ({["http://example.com/a"]} ∪ ∅)
           (Intact
              (<["http://example.com/a" := "/tmp/webscraper1/example.com_a.pdf"]> ∅))
           [mkCall pageA Done; mkCall pageA Skipped]
           ["http://example.com/a"] ["http://example.com/a"].

(** Callbacks for two different URLs, both inside the assignment to
    [pdfs] at the same time. *)
Definition raced : Config :=
  mkConfig ({["http://example.com/"]} ∪ ({["http://example.com/a"]} ∪ ∅))
           Raced
           [mkCall pageA (Writing "/tmp/webscraper1/example.com_a.pdf");
            mkCall rootResponse (Writing "/tmp/webscraper1/example.com_index.pdf")]
           ["http://example.com/a"; "http://example.com/"] [].

Definition twoPdfs : Scraper :=
  mkScraper ∅
    (<["http://example.com/a" := "/tmp/webscraper1/example.com_a.pdf"]>
       (<["http://example.com/a?x=1" := "/tmp/webscraper1/example.com_a.pdf"]> ∅))
    true false.

End Sample.

(* ===================================================================== *)
(** ** Further notions: frames, kinds of calls, the crawl as a fold *)
(* ===================================================================== *)

Module Aux.

(** The walk [w] with [b0] put in front of what it has built. *)
Definition onto (b0 : string) (w : Walk) : Walk :=
  mkWalk (b0 +:+ textBuilder w) (lastNodeWasBlock w) (lastNodeWasText w).

(** The line feed byte. *)
Definition LF : ascii := ascii_of_N 10.

Fixpoint hasByte (c : ascii) (s : string) : bool :=
  match s with
  | "" => false
  | String a r => Ascii.eqb a c || hasByte c r
  end.

Definition nonEmpty (s : string) : bool := negb (String.eqb s "").

(** A rendered line of three words or more. *)
Definition manyWords (cell : string) : bool := 2 <? length (Fields cell).

Definition isOutput (op : Op) : bool :=
  match op with OutputFileAndClose _ _ => true | _ => false end.

(** The calls the response callback makes. *)
Definition isCallbackOp (op : Op) : bool :=
  match op with OutputFileAndClose _ _ | Remove _ => true | _ => false end.

(** The calls of the loop of [createZip]. *)
Definition isZipOp (op : Op) : bool :=
  match op with Open _ | ZipCreate _ | Copy _ _ => true | _ => false end.

(** The three calls that write one archive entry. *)
Definition entryOps (e : ZipEntry) : list Op :=
  [Open e.2; ZipCreate e.1; Copy e.1 e.2].

(** [r.Request.URL.String()], the key of [visited] and [pdfs]. *)
Definition keyOf (E : Env) (r : Response) : string :=
  url_String E (Request_URL r).

(** The file the callback renders response [r] to. *)
Definition tmpFile (E : Env) (tmpDir : string) (r : Response) : string :=
  path_Join E tmpDir (pdfName (Request_URL r)).




(** The callback run on the responses of a synchronous crawl, in order. *)
Definition crawl (E : Env) (tmpDir : string) (rs : list Response)
    (st : Scraper * Trace) : Scraper * Trace :=
  foldl (fun st r => onResponse E tmpDir r st) st rs.

End Aux.

Import Aux.

(* ===================================================================== *)
(** ** A second environment: the HTML parser rejects every body *)
(* ===================================================================== *)

Module Cases.

Definition rejecting : Env :=
  mkEnv Sample.parse Sample.render (fun _ => None)
        (fun _ => "out") (fun d f => d +:+ "/" +:+ f)
        (fun _ _ => true) (fun _ => "/tmp/webscraper1")
        (fun _ _ => ([], true))
        map_to_list.

(** A new scraper with stripping on, before any call. *)
Definition fresh : Scraper * Trace := (NewScraper true false, []).

(** A file system on which a file under a directory that has been removed
    cannot be opened and every other call succeeds; [os.MkdirTemp] makes a
    new directory each time; the crawl hands over the start page. *)
Definition removedBefore (t : Trace) (f : string) : bool :=
  existsb (fun op => match op with RemoveAll d => HasPrefix f d | _ => false end) t.

Definition isMkdirTemp (op : Op) : bool :=
  match op with MkdirTemp => true | _ => false end.

Definition disk : Env :=
  mkEnv Sample.parse Sample.render (fun _ => Some Sample.doc)
        (fun _ => "out") (fun d f => d +:+ "/" +:+ f)
        (fun t op => match op with Open f => negb (removedBefore t f) | _ => true end)
        (fun t => if existsb isMkdirTemp t then "/tmp/webscraper2"
                  else "/tmp/webscraper1")
        (fun _ _ => ([Sample.rootResponse], true))
        map_to_list.

(** Every page is fetched and none can be written. *)
Definition unwritable : Env :=
  mkEnv Sample.parse Sample.render (fun _ => Some Sample.doc)
        (fun _ => "out") (fun d f => d +:+ "/" +:+ f)
        (fun _ op => negb (isOutput op)) (fun _ => "/tmp/webscraper1")
        (fun _ _ => ([Sample.rootResponse; Sample.pageA], true))
        map_to_list.

(** [ScrapeAndSave] called twice on one scraper, for the same start URL
    and output path. *)
Definition firstRun : result * Scraper * Trace :=
  ScrapeAndSave disk (NewScraper true false)
                "http://example.com/" "out/example.com.zip" [].

Definition secondRun : result * Scraper * Trace :=
  ScrapeAndSave disk firstRun.1.2
                "http://example.com/" "out/example.com.zip" firstRun.2.

End Cases.

(* ===================================================================== *)
(** * Properties *)
(* ===================================================================== *)

(** ** The model on known inputs *)

Example TrimSpace_ex :
  TrimSpace ("  Padded   text  " +:+ nl) = "Padded   text".
Proof. reflexivity. Qed.

Example Fields_ex : Fields " a  b c " = ["a"; "b"; "c"].
Proof. reflexivity. Qed.

Example Split_ex : Split ("a" +:+ nl +:+ nl +:+ "b" +:+ nl) nl = ["a"; ""; "b"; ""].
Proof. reflexivity. Qed.

Example ReplaceAll_ex :
  ReplaceAll (nl +:+ nl +:+ nl +:+ nl) (nl +:+ nl +:+ nl) (nl +:+ nl)
  = nl +:+ nl +:+ nl.
Proof. reflexivity. Qed.

Example Trim_ex : Trim "//a/b/" "/" = "a/b".
Proof. reflexivity. Qed.


(** The cases of [TestStripHTMLTags], on the trees [html.Parse] builds. *)

Example test_basic_paragraph :
  stripParsed (page [Element "p" [Text "Hello World"]])
  = "Hello World" +:+ nl +:+ nl.
Proof. vm_compute. reflexivity. Qed.

Example test_nested_elements :
  stripParsed (page [Element "div" [Element "p" [Text "First paragraph"];
                                    Element "p" [Text "Second paragraph"]]])
  = "First paragraph" +:+ nl +:+ nl +:+ "Second paragraph" +:+ nl +:+ nl.
Proof. vm_compute. reflexivity. Qed.

Example test_list_items :
  stripParsed (page [Element "ul" [Element "li" [Text "First item"];
                                   Element "li" [Text "Second item"]]])
  = "• First item" +:+ nl +:+ "• Second item" +:+ nl +:+ nl.
Proof. vm_compute. reflexivity. Qed.

Example test_headings :
  stripParsed (page [Element "h1" [Text "Title"]; Element "p" [Text "Content"];
                     Element "h2" [Text "Subtitle"]])
  = "Title" +:+ nl +:+ nl +:+ "Content" +:+ nl +:+ nl +:+ "Subtitle" +:+ nl +:+ nl.
Proof. vm_compute. reflexivity. Qed.

Example test_complex_nested_structure :
  stripParsed (page [Element "div" [
    Sample.ws; Element "h1" [Text "Main Title"]; Sample.ws; Comment " Navigation section "; Sample.ws;
    Element "nav" [Sample.ws; Element "a" [Text "Home"]; Sample.ws; Element "a" [Text "About"]; Sample.ws];
    Sample.ws;
    Element "div" [
      Sample.ws; Element "p" [Text "First paragraph with ";
                       Element "strong" [Text "bold"]; Text " text."];
      Sample.ws; Element "ul" [Sample.ws; Element "li" [Text "Point 1"]; Sample.ws;
                        Element "li" [Text "Point 2"]; Sample.ws];
      Sample.ws; Element "p" [Text "Second paragraph."]; Sample.ws];
    Sample.ws; Element "style" [Text ".hidden { display: none; }"];
    Sample.ws; Element "script" [Text "alert(1);"]; Sample.ws]])
  = "Main Title" +:+ nl +:+ nl +:+ "Home" +:+ nl +:+ "AboutFirst paragraph with"
    +:+ nl +:+ nl +:+ "boldtext." +:+ nl +:+ nl +:+ "• Point 1" +:+ nl
    +:+ "• Point 2" +:+ nl +:+ "Second paragraph." +:+ nl +:+ nl.
Proof. vm_compute. reflexivity. Qed.

Example test_empty_elements :
  stripParsed (page [Element "p" []; Element "div" []; Element "span" []]) = "".
Proof. vm_compute. reflexivity. Qed.

Example test_whitespace_handling :
  stripParsed (page [Element "p" [Text "  Padded   text  "]])
  = "Padded   text" +:+ nl +:+ nl.
Proof. vm_compute. reflexivity. Qed.

(** The entry names of the README. *)

Example pdfName_index :
  pdfName (mkURL "https" "example.com" "/" "") = "example.com_index.pdf".
Proof. vm_compute. reflexivity. Qed.

Example pdfName_about :
  pdfName (mkURL "https" "example.com" "/about" "") = "example.com_about.pdf".
Proof. vm_compute. reflexivity. Qed.

Example pdfName_nested :
  pdfName (mkURL "https" "example.com" "/docs/a/" "") = "example.com_docs_a.pdf".
Proof. vm_compute. reflexivity. Qed.

(** [ScrapeAndSave] in an environment where every call succeeds: a crawl
    of one page, a crawl that hands over nothing, and a crawl that sees one
    URL twice and the same path with a query string. *)

Example run_one_page :
  let out := ScrapeAndSave (Sample.env [Sample.rootResponse]) (NewScraper true false)
                           "http://example.com/" "out/example.com.zip" [] in
  (out.1.1, out.2) =
  (Ok, [MkdirAll "out"; MkdirTemp;
        OutputFileAndClose "/tmp/webscraper1/example.com_index.pdf" ["T"; "C"];
        Create "out/example.com.zip";
        Open "/tmp/webscraper1/example.com_index.pdf";
        ZipCreate "example.com_index.pdf";
        Copy "example.com_index.pdf" "/tmp/webscraper1/example.com_index.pdf";
        RemoveAll "/tmp/webscraper1"]).
Proof. vm_compute. reflexivity. Qed.

Example run_no_pages :
  let out := ScrapeAndSave (Sample.env []) (NewScraper true false)
                           "http://example.com/" "out/example.com.zip" [] in
  (out.1.1, out.2) =
  (Err ErrNoPages, [MkdirAll "out"; MkdirTemp; RemoveAll "/tmp/webscraper1"]).
Proof. vm_compute. reflexivity. Qed.

Example run_same_name_twice :
  let out := ScrapeAndSave
               (Sample.env [Sample.pageA; Sample.pageA; mkResponse Sample.urlAq "x"])
               (NewScraper false false)
               "http://example.com/" "out/example.com.zip" [] in
  (out.1.1, out.2) =
  (Ok, [MkdirAll "out"; MkdirTemp;
        OutputFileAndClose "/tmp/webscraper1/example.com_a.pdf" ["<h1>T</h1><p>C</p>"];
        OutputFileAndClose "/tmp/webscraper1/example.com_a.pdf" ["x"];
        Create "out/example.com.zip";
        Open "/tmp/webscraper1/example.com_a.pdf";
        ZipCreate "example.com_a.pdf";
        Copy "example.com_a.pdf" "/tmp/webscraper1/example.com_a.pdf";
        Open "/tmp/webscraper1/example.com_a.pdf";
        ZipCreate "example.com_a.pdf";
        Copy "example.com_a.pdf" "/tmp/webscraper1/example.com_a.pdf";
        RemoveAll "/tmp/webscraper1"]).
Proof. vm_compute. reflexivity. Qed.

(** ** Bytes and strings *)

Section StringFacts.

Implicit Types s t u : string.
Implicit Types a b : ascii.

Lemma sapp_nil_r s : s +:+ "" = s.
Proof. induction s as [|a s IH]; [done|]. change (String a (s +:+ "") = String a s). by rewrite IH. Qed.

Lemma sapp_assoc s t u : (s +:+ t) +:+ u = s +:+ (t +:+ u).
Proof.
  induction s as [|a s IH]; [done|].
  change (String a ((s +:+ t) +:+ u) = String a (s +:+ (t +:+ u))).
  by rewrite IH.
Qed.

Lemma sapp_cons a s t : String a s +:+ t = String a (s +:+ t).
Proof. done. Qed.

Lemma sapp_length s t : String.length (s +:+ t) = String.length s + String.length t.
Proof.
  induction s as [|a s IH]; [done|].
  rewrite sapp_cons. simpl. by rewrite IH.
Qed.

Lemma rev_app_spec s acc : rev_app s acc = srev s +:+ acc.
Proof.
  unfold srev. revert acc.
  induction s as [|a s IH]; intros acc; [done|].
  simpl. rewrite (IH (String a "")), IH, sapp_assoc. done.
Qed.

Lemma srev_cons a s : srev (String a s) = srev s +:+ String a "".
Proof. unfold srev at 1. simpl. apply rev_app_spec. Qed.

Lemma srev_app s t : srev (s +:+ t) = srev t +:+ srev s.
Proof.
  induction s as [|a s IH].
  - change ("" +:+ t) with t. by rewrite sapp_nil_r.
  - rewrite sapp_cons, !srev_cons, IH, sapp_assoc. done.
Qed.

Lemma srev_involutive s : srev (srev s) = s.
Proof.
  induction s as [|a s IH]; [done|].
  rewrite srev_cons, srev_app, IH. done.
Qed.

Lemma lastByte_app s t : t <> "" -> lastByte (s +:+ t) = lastByte t.
Proof.
  intros Ht. induction s as [|a s IH]; [done|].
  rewrite sapp_cons. simpl. rewrite IH.
  destruct (s +:+ t) eqn:E; [|done].
  destruct s; [|done]. by destruct t.
Qed.

Lemma lastByte_snoc s a : lastByte (s +:+ String a "") = Some a.
Proof. by rewrite lastByte_app. Qed.

Lemma lastByte_srev a s : lastByte (srev (String a s)) = Some a.
Proof. rewrite srev_cons. apply lastByte_snoc. Qed.

Lemma substring_all s : String.substring 0 (String.length s) s = s.
Proof. induction s as [|a s IH]; [done|]. simpl. by rewrite IH. Qed.

Lemma substring_split s n :
  n <= String.length s ->
  String.substring 0 n s +:+ String.substring n (String.length s - n) s = s.
Proof.
  revert n. induction s as [|a s IH]; intros n Hn.
  - simpl in Hn. by replace n with 0 by lia.
  - destruct n as [|n].
    + change (String.substring 0 (String.length (String a s)) (String a s) = String a s).
      apply substring_all.
    + simpl in Hn. simpl. rewrite sapp_cons, IH; [done|lia].
Qed.

(** [HasSuffix] holds exactly of the strings that end with the suffix. *)
Lemma HasSuffix_true s suf : HasSuffix s suf = true -> exists p, s = p +:+ suf.
Proof.
  unfold HasSuffix. intros H.
  apply andb_true_iff in H as [Hlen Heq].
  apply Nat.leb_le in Hlen. apply String.eqb_eq in Heq.
  exists (String.substring 0 (String.length s - String.length suf) s).
  pose proof (substring_split s (String.length s - String.length suf)) as Hs.
  replace (String.length s - (String.length s - String.length suf))
    with (String.length suf) in Hs by lia.
  rewrite Heq in Hs. symmetry. apply Hs. lia.
Qed.

Lemma HasSuffix_lastByte s suf :
  suf <> "" -> HasSuffix s suf = true -> lastByte s = lastByte suf.
Proof.
  intros Hne H. apply HasSuffix_true in H as [p ->]. by apply lastByte_app.
Qed.

Lemma spaceAt_head a r : spaceAt (String a r) = 0 -> asciiSpace a = false.
Proof. simpl. by destruct (asciiSpace a). Qed.

Lemma spaceBefore_head a r : spaceBefore (String a r) = 0 -> asciiSpace a = false.
Proof. simpl. by destruct (asciiSpace a). Qed.

Lemma dropRunes_head (width : string -> nat) :
  (forall a r, width (String a r) = 0 -> asciiSpace a = false) ->
  forall s k a r, dropRunes width k s = String a r -> asciiSpace a = false.
Proof.
  intros Hw s. induction s as [|b s IH]; intros k a r H; [done|].
  simpl in H. destruct k as [|k]; [|by eapply IH].
  destruct (width (String b s)) eqn:E; [|by eapply IH].
  injection H as -> _. by eapply Hw.
Qed.

(** What [TrimRightFunc(s, unicode.IsSpace)] returns does not end with an
    ASCII white-space byte. *)
Lemma TrimRightSpace_last s a :
  lastByte (TrimRightSpace s) = Some a -> asciiSpace a = false.
Proof.
  unfold TrimRightSpace.
  destruct (dropRunes spaceBefore 0 (srev s)) as [|b r] eqn:E; [done|].
  rewrite lastByte_srev. intros [= <-].
  eapply dropRunes_head; [apply spaceBefore_head|exact E].
Qed.

Lemma TrimSpace_last s a : lastByte (TrimSpace s) = Some a -> asciiSpace a = false.
Proof. apply TrimRightSpace_last. Qed.

Lemma TrimSpace_no_suffix s suf :
  lastByte suf = Some (ascii_of_N 10) -> HasSuffix (TrimSpace s) suf = false.
Proof.
  intros Hs. destruct (HasSuffix (TrimSpace s) suf) eqn:E; [|done].
  apply HasSuffix_lastByte in E; [|by destruct suf].
  rewrite Hs in E. by apply TrimSpace_last in E.
Qed.

End StringFacts.

(** ** The clean-up after the walk *)

Lemma finish_cases (built : string) :
  finish built =
    if decide (TrimSpace (ReplaceAll built (nl +:+ nl +:+ nl) (nl +:+ nl)) = "")
    then ""
    else TrimSpace (ReplaceAll built (nl +:+ nl +:+ nl) (nl +:+ nl)) +:+ nl +:+ nl.
Proof.
  unfold finish. cbv zeta.
  rewrite !TrimSpace_no_suffix by done. simpl.
  destruct (String.eqb_spec
              (TrimSpace (ReplaceAll built (nl +:+ nl +:+ nl) (nl +:+ nl))) "")
    as [->|Hne].
  - done.
  - by rewrite decide_False.
Qed.

(** C1: whatever the input, the text [stripHTMLTags] returns is either
    empty or some non-empty text that does not end with a line feed followed
    by exactly two line feeds; when the walk of the parsed document has
    emitted nothing the result is the empty string. *)
Theorem C1_two_trailing_newlines
    (html_Parse : string -> option Node) (htmlContent r : string) :
  stripHTMLTags html_Parse htmlContent = Some r ->
  (r = "" \/
   exists t, r = t +:+ nl +:+ nl /\ t <> "" /\ lastByte t <> Some (ascii_of_N 10))
  /\ (forall doc, html_Parse htmlContent = Some doc ->
        textBuilder (extractText None false doc initWalk) = "" -> r = "").
Proof.
  unfold stripHTMLTags, stripParsed.
  destruct (html_Parse htmlContent) as [doc|]; [|done].
  intros [= <-]. split.
  - rewrite finish_cases. case_decide as Hc; [by left|right].
    eexists. split; [done|]. split; [done|].
    intros Hl. by apply TrimSpace_last in Hl.
  - intros doc' [= <-] ->. done.
Qed.

(** ** The walk *)

Lemma Node_forall_ind (P : Node -> Prop) :
  (forall ty d cs, Forall P cs -> P (mkNode ty d cs)) -> forall n, P n.
Proof.
  intros H. fix IH 1. intros [ty d cs]. apply H.
  induction cs as [|c cs IHcs]; constructor; [apply IH|apply IHcs].
Qed.

Lemma extractText_eq par hasNext ty d cs w :
  extractText par hasNext (mkNode ty d cs) w =
    if suppressed ty d then w
    else if bool_decide (ty = ElementNode) && stylingTags d
    then forChildren (extractText (Some (asParent par hasNext d))) cs w
    else forChildren (extractText (Some (asParent par hasNext d))) cs
           (if bool_decide (ty = TextNode) then visitText par d w else w).
Proof. reflexivity. Qed.

Lemma forChildren_cons {A} (f : bool -> A -> Walk -> Walk) c cs w :
  forChildren f (c :: cs) w =
    forChildren f cs (f (match cs with [] => false | _ => true end) c w).
Proof. reflexivity. Qed.

Lemma forChildren_unchanged {A} (f : bool -> A -> Walk -> Walk) cs w :
  Forall (fun c => forall hasNext w, f hasNext c w = w) cs ->
  forChildren f cs w = w.
Proof.
  induction 1 as [|c cs Hc _ IH]; [done|].
  by rewrite forChildren_cons, Hc.
Qed.

Lemma suppressed_iff ty d :
  suppressed ty d = true <->
  ty = CommentNode \/
  (ty = ElementNode /\ d ∈ ["script"; "style"; "meta"; "link"; "noscript"]).
Proof.
  unfold suppressed, member, suppressedTagList.
  rewrite orb_true_iff, andb_true_iff, !bool_decide_eq_true. done.
Qed.

Lemma visitText_blank par d w : blank d = true -> visitText par d w = w.
Proof.
  unfold blank. rewrite andb_true_iff, !bool_decide_eq_true. intros [H1 H2].
  unfold visitText, trimmedText.
  destruct par as [p|]; [destruct (stylingTags (pData p))|];
    rewrite ?H1, ?H2; done.
Qed.

Lemma onlySuppressed_unchanged n :
  onlySuppressed n = true ->
  forall par hasNext w, extractText par hasNext n w = w.
Proof.
  induction n as [ty d cs IH] using Node_forall_ind.
  intros Hs par hasNext w. rewrite extractText_eq.
  simpl in Hs. destruct (suppressed ty d); [done|].
  simpl in Hs. apply andb_true_iff in Hs as [Ht Hcs].
  assert (Hkids : forall p w0, forChildren (extractText p) cs w0 = w0).
  { intros p w0. apply forChildren_unchanged.
    rewrite forallb_forall in Hcs. rewrite Forall_forall in IH |- *.
    intros c Hc hn w1. apply IH; [done|]. apply Hcs. by apply list_elem_of_In. }
  destruct (bool_decide (ty = ElementNode) && stylingTags d); [apply Hkids|].
  rewrite Hkids. destruct (bool_decide (ty = TextNode)); [|done].
  simpl in Ht. by apply visitText_blank.
Qed.

(** C2: a Comment node, and an Element node whose tag is script, style,
    meta, link or noscript, leaves the output and the walk state as they
    were, whatever its descendants are; and a document in which all text
    lies inside such nodes (apart from white space between them) is
    extracted to the empty string. *)
Theorem C2_suppressed_nodes :
  (forall par hasNext ty d cs w,
      ty = CommentNode \/
      (ty = ElementNode /\ d ∈ ["script"; "style"; "meta"; "link"; "noscript"]) ->
      extractText par hasNext (mkNode ty d cs) w = w)
  /\ (forall doc, onlySuppressed doc = true -> stripParsed doc = "").
Proof.
  split.
  - intros par hasNext ty d cs w H. apply suppressed_iff in H.
    by rewrite extractText_eq, H.
  - intros doc H. unfold stripParsed.
    by rewrite onlySuppressed_unchanged.
Qed.

Lemma styling_not_suppressed d :
  stylingTags d = true -> suppressed ElementNode d = false.
Proof.
  unfold stylingTags, member, stylingTagList. rewrite bool_decide_eq_true.
  intros H. repeat (apply elem_of_cons in H as [->|H]; [by vm_compute|]).
  by apply elem_of_nil in H.
Qed.

Lemma styling_emit d gp hn text w :
  stylingTags d = true -> emit (Some (mkParent d gp hn)) text w = inlineText text w.
Proof.
  unfold stylingTags, member, stylingTagList. rewrite bool_decide_eq_true.
  intros H. repeat (apply elem_of_cons in H as [->|H]; [by vm_compute|]).
  by apply elem_of_nil in H.
Qed.

(** C3 as stated fails: extracting a paragraph that holds a strong element
    differs from extracting the tree with the strong element spliced
    out. *)
Lemma C3_splice_counterexample :
  ~ (forall doc, stripParsed doc = stripParsed (spliced doc)).
Proof.
  intros H.
  specialize (H (page [Element "p" [Text "First "; Element "strong" [Text "bold"];
                                    Text " text."]])).
  vm_compute in H. discriminate H.
Qed.

(** C3, amended: a styling element emits nothing itself and is walked as
    its children in order, which see the styling element as their parent;
    a Text child of a styling element is trimmed on the right only and
    formatted by the default inline rule. *)
Theorem C3_styling_walks_children (d : string) :
  stylingTags d = true ->
  (forall par hasNext cs w,
      extractText par hasNext (Element d cs) w =
        forChildren (extractText (Some (asParent par hasNext d))) cs w)
  /\ (forall gp pHasNext hasNext txt w,
        extractText (Some (mkParent d gp pHasNext)) hasNext (Text txt) w =
          if decide (TrimRightSpace txt = "") then w
          else inlineText (TrimRightSpace txt) w).
Proof.
  intros Hd. split.
  - intros par hasNext cs w. unfold Element.
    by rewrite extractText_eq, styling_not_suppressed, Hd.
  - intros gp phn hasNext txt w. unfold Text.
    rewrite extractText_eq. simpl.
    unfold visitText, trimmedText. simpl. rewrite Hd.
    case_decide; [done|]. by apply styling_emit.
Qed.

(** The [case "a"] of the switch, on what the Text node reads through its
    [Parent] pointer. *)
Lemma anchor_text_node (gp : option string) (pHasNext hasNext : bool)
    (txt : string) (w : Walk) :
  TrimSpace txt <> "" ->
  extractText (Some (mkParent "a" gp pHasNext)) hasNext (Text txt) w =
    anchorEmission (bool_decide (gp = Some "nav") && negb pHasNext) txt w.
Proof.
  intros Hne. unfold Text. rewrite extractText_eq. simpl.
  unfold visitText, trimmedText. simpl.
  rewrite decide_False by done. unfold emit, anchorEmission. simpl.
  unfold setFlags, WriteString.
  destruct (bool_decide (gp = Some "nav")), pHasNext, (lastNodeWasText w); simpl;
    rewrite ?sapp_assoc, ?sapp_nil_r; done.
Qed.

(** An element that is not suppressed writes nothing itself: the walk goes
    through its children, which see it as their parent. *)
Lemma element_walk par hasNext d cs w :
  suppressed ElementNode d = false ->
  extractText par hasNext (Element d cs) w =
    forChildren (extractText (Some (asParent par hasNext d))) cs w.
Proof.
  intros Hd. unfold Element. rewrite extractText_eq, Hd.
  by destruct (stylingTags d).
Qed.

(** The loop over the children, at a child in the middle: the children
    before it all have a next sibling, and the child itself has one if
    there are children after it. *)
Lemma forChildren_app_cons {A} (f : bool -> A -> Walk -> Walk) pre c post w :
  forChildren f (pre ++ c :: post) w =
    forChildren f post (f (hasMore post) c (forChildren (fun _ => f true) pre w)).
Proof.
  revert w. induction pre as [|a pre IH]; intros w; [done|].
  rewrite <- app_comm_cons, !forChildren_cons, IH.
  by destruct pre.
Qed.

(** C4 as stated fails: an anchor that is the last child of a container
    whose parent is a [nav] gets no trailing line feed. *)
Lemma C4_nav_container_counterexample :
  ~ (forall g c txt w,
        TrimSpace txt <> "" ->
        suppressed ElementNode g = false -> suppressed ElementNode c = false ->
        extractText None false (Element g [Element c [Element "a" [Text txt]]]) w =
          anchorEmission (bool_decide (g = "nav")) txt w).
Proof.
  intros H.
  specialize (H "nav" "div" "Home" initWalk).
  vm_compute in H. by specialize (H ltac:(discriminate) eq_refl eq_refl).
Qed.

(** C4: a Text node under an [a] element whose trimmed text is not empty
    appends a line feed if the last emission was inline text, then the
    text, then a line feed if the [a] element's own parent is a [nav] and
    the [a] element has no next sibling of any kind; afterwards
    lastNodeWasBlock is false and lastNodeWasText is true.  First on what
    the Text node reads through its [Parent] pointer, then in the tree:
    the anchor among the children of an element [d], and an anchor
    without a parent. *)
Theorem C4_anchor_text_in_tree (txt : string) :
  TrimSpace txt <> "" ->
  (forall gp pHasNext hasNext w,
      extractText (Some (mkParent "a" gp pHasNext)) hasNext (Text txt) w =
        anchorEmission (bool_decide (gp = Some "nav") && negb pHasNext) txt w)
  /\ (forall par hasNext d pre post apre apost w,
        suppressed ElementNode d = false ->
        extractText par hasNext
          (Element d (pre ++ Element "a" (apre ++ Text txt :: apost) :: post)) w =
          forChildren (extractText (Some (asParent par hasNext d))) post
            (forChildren
               (extractText (Some (mkParent "a" (Some d) (hasMore post)))) apost
               (anchorEmission (bool_decide (d = "nav") && negb (hasMore post)) txt
                  (forChildren
                     (fun _ =>
                        extractText (Some (mkParent "a" (Some d) (hasMore post))) true)
                     apre
                     (forChildren
                        (fun _ => extractText (Some (asParent par hasNext d)) true)
                        pre w)))))
  /\ (forall hasNext apre apost w,
        extractText None hasNext (Element "a" (apre ++ Text txt :: apost)) w =
          forChildren (extractText (Some (mkParent "a" None hasNext))) apost
            (anchorEmission false txt
               (forChildren
                  (fun _ => extractText (Some (mkParent "a" None hasNext)) true)
                  apre w))).
Proof.
  intros Hne. split; [|split].
  - intros gp pHasNext hasNext w. by apply anchor_text_node.
  - intros par hasNext d pre post apre apost w Hd.
    rewrite (element_walk _ _ _ _ _ Hd), forChildren_app_cons.
    rewrite (element_walk _ _ "a") by reflexivity.
    rewrite forChildren_app_cons.
    change (asParent (Some (asParent par hasNext d)) (hasMore post) "a")
      with (mkParent "a" (Some d) (hasMore post)).
    rewrite anchor_text_node by done.
    replace (bool_decide (Some d = Some "nav")) with (bool_decide (d = "nav"));
      [done|].
    apply bool_decide_ext. split; [by intros ->|by intros [= ->]].
  - intros hasNext apre apost w.
    rewrite (element_walk _ _ "a") by reflexivity.
    rewrite forChildren_app_cons.
    change (asParent None hasNext "a") with (mkParent "a" None hasNext).
    rewrite anchor_text_node by done.
    by destruct (bool_decide (None = Some "nav")) eqn:Hb;
      [apply bool_decide_eq_true in Hb|].
Qed.

(** The anchor rule on small trees: the last anchor of a [nav]; an anchor
    in a container inside a [nav]; an anchor followed by a comment; and the
    anchors of a list inside a [nav]. *)
Example anchor_last_in_nav :
  extractText None false
    (Element "nav" [Element "a" [Text "Home"]; Element "a" [Text "About"]]) initWalk
  = mkWalk ("Home" +:+ nl +:+ "About" +:+ nl) false true.
Proof. vm_compute. reflexivity. Qed.

Example anchor_in_nav_container :
  extractText None false
    (Element "nav" [Element "div" [Element "a" [Text "Home"]]]) initWalk
  = mkWalk "Home" false true.
Proof. vm_compute. reflexivity. Qed.

Example anchor_before_comment :
  extractText None false
    (Element "nav" [Element "a" [Text "Home"]; Comment " end "]) initWalk
  = mkWalk "Home" false true.
Proof. vm_compute. reflexivity. Qed.

Example anchor_in_nav_list :
  stripParsed
    (page [Element "nav" [Element "ul" [Element "li" [Element "a" [Text "Home"]];
                                        Element "li" [Element "a" [Text "About"]]]];
           Element "p" [Text "Next"]])
  = "Home" +:+ nl +:+ "AboutNext" +:+ nl +:+ nl.
Proof. vm_compute. reflexivity. Qed.

(** C5: a Text node under a heading h1..h6 whose trimmed text is not empty
    appends a line feed unless the walk is already after a block, then the
    text, then two line feeds, and leaves lastNodeWasBlock true and
    lastNodeWasText false; and the document of [<h1>T</h1><p>C</p>] is
    extracted to T, two line feeds, C, two line feeds. *)
Theorem C5_heading_text :
  (forall h gp pHasNext hasNext txt w,
      h ∈ ["h1"; "h2"; "h3"; "h4"; "h5"; "h6"] ->
      TrimSpace txt <> "" ->
      extractText (Some (mkParent h gp pHasNext)) hasNext (Text txt) w =
        mkWalk (textBuilder w
                  +:+ (if lastNodeWasBlock w then "" else nl)
                  +:+ TrimSpace txt +:+ nl +:+ nl)
               true false)
  /\ stripParsed (page [Element "h1" [Text "T"]; Element "p" [Text "C"]])
     = "T" +:+ nl +:+ nl +:+ "C" +:+ nl +:+ nl.
Proof.
  split; [|by vm_compute].
  intros h gp phn hasNext txt w Hh Hne.
  unfold Text. rewrite extractText_eq. simpl.
  unfold visitText.
  assert (Ht : trimmedText (Some (mkParent h gp phn)) txt = TrimSpace txt).
  { repeat (apply elem_of_cons in Hh as [->|Hh]; [done|]).
    by apply elem_of_nil in Hh. }
  rewrite Ht, decide_False by done.
  assert (He : emit (Some (mkParent h gp phn)) (TrimSpace txt) w =
               setFlags true false
                 (WriteString (nl +:+ nl)
                    (WriteString (TrimSpace txt)
                       (if lastNodeWasBlock w then w else WriteString nl w)))).
  { repeat (apply elem_of_cons in Hh as [->|Hh]; [done|]).
    by apply elem_of_nil in Hh. }
  rewrite He. unfold setFlags, WriteString.
  destruct (lastNodeWasBlock w); simpl; rewrite ?sapp_assoc, ?sapp_nil_r; done.
Qed.

(** ** Clean mode *)

Lemma cleanStep_keepLine acc line :
  cleanStep acc line = if keepLine line then acc ++ [line] else acc.
Proof.
  unfold cleanStep, keepLine, wordCount.
  case_decide as Hb.
  - by rewrite bool_decide_eq_true_2.
  - by rewrite bool_decide_eq_false_2.
Qed.

Lemma foldl_cleanStep lines acc :
  foldl cleanStep acc lines = acc ++ List.filter keepLine lines.
Proof.
  revert acc. induction lines as [|l lines IH]; intros acc; simpl.
  - by rewrite app_nil_r.
  - rewrite IH, cleanStep_keepLine.
    destruct (keepLine l); [|done]. by rewrite <- app_assoc.
Qed.

Lemma keepLine_spec line :
  keepLine line = true <-> TrimSpace line = "" \/ 3 <= wordCount line.
Proof.
  unfold keepLine. rewrite orb_true_iff, bool_decide_eq_true, Nat.ltb_lt.
  reflexivity.
Qed.

(** C6 as stated fails: the extractor output of a block whose text holds a
    line of one space has a line that is not empty and has no word, and
    clean mode keeps it. *)
Lemma C6_blank_line_counterexample :
  ~ (forall doc,
       cleanContent (stripParsed doc) =
         Join (List.filter keepLineAsStated (Split (stripParsed doc) nl)) nl).
Proof.
  intros H.
  specialize (H (page [Element "div"
                         [Text ("foo" +:+ nl +:+ " " +:+ nl +:+ "bar")]])).
  vm_compute in H. discriminate H.
Qed.

(** C6, amended: clean mode splits the extractor output on line feeds and
    keeps, unchanged and in order, the lines that are blank (empty once
    white space is trimmed) and the lines of three words or more; the other
    lines are dropped.  The filter runs on the output of [stripHTMLTags] and
    its result is what is split into the lines of the PDF, so the bullet of
    a list item counts as a word. *)
Theorem C6_clean_mode :
  (forall content,
      cleanContent content = Join (List.filter keepLine (Split content nl)) nl)
  /\ (forall line,
        keepLine line = true <-> TrimSpace line = "" \/ 3 <= wordCount line)
  /\ (forall E s filename htmlContent content t,
        stripHTML s = true -> clean s = true ->
        stripHTMLTags (html_Parse E) htmlContent = Some content ->
        pdfContent E s htmlContent = Some (cleanContent content) /\
        snd (createPDF E s filename htmlContent t) =
          t ++ [OutputFileAndClose filename (pdfCells (cleanContent content))])
  /\ (keepLine "First item" = false /\ keepLine "• First item" = true).
Proof.
  split; [|split; [|split]].
  - intros content. unfold cleanContent. by rewrite foldl_cleanStep.
  - apply keepLine_spec.
  - intros E s filename htmlContent content t Hs Hc Hx.
    unfold createPDF, pdfContent. rewrite Hs, Hx, Hc. split; [done|].
    unfold perform. by destruct (succeeds E t _).
  - by vm_compute.
Qed.

(** ** Archive entry names *)

Lemma prefix_byte c a r :
  String.prefix (String c "") (String a r) = Ascii.eqb a c.
Proof.
  cbn [String.prefix].
  destruct (ascii_dec c a) as [->|Hne].
  - rewrite Ascii.eqb_refl. by destruct r.
  - symmetry. apply Ascii.eqb_neq. congruence.
Qed.

Lemma ReplaceAll_slash s :
  ReplaceAll s "/" "_" = mapBytes slashToUnderscore s.
Proof.
  unfold ReplaceAll. induction s as [|a s IH]; [done|].
  cbn [replaceGo mapBytes]. rewrite prefix_byte.
  change (String.length "/" - 1) with 0. rewrite IH.
  unfold slashToUnderscore, slash. by destruct (Ascii.eqb a "/").
Qed.

Lemma mapBytes_no_slash s :
  Forall (fun a => a <> slash) (list_ascii_of_string (mapBytes slashToUnderscore s)).
Proof.
  induction s as [|a s IH]; simpl; constructor; [|done].
  unfold slashToUnderscore. destruct (Ascii.eqb_spec a slash); [done|done].
Qed.

Lemma trimLeftByte_split c s :
  exists i, s = repeatByte c i +:+ trimLeftByte c s.
Proof.
  induction s as [|a s [i IH]]; [by exists 0|].
  simpl. destruct (Ascii.eqb_spec a c) as [->|Hne].
  - exists (S i). simpl. rewrite sapp_cons. by f_equal.
  - by exists 0.
Qed.

Lemma trimLeftByte_head c s a r : trimLeftByte c s = String a r -> a <> c.
Proof.
  induction s as [|b s IH]; [done|].
  simpl. destruct (Ascii.eqb_spec b c) as [->|Hne]; [done|].
  by intros [= <- _].
Qed.

Lemma trimLeftByte_last c s :
  lastByte s <> Some c -> lastByte (trimLeftByte c s) <> Some c.
Proof.
  induction s as [|a s IH]; [done|].
  intros Hl. simpl. destruct (Ascii.eqb_spec a c) as [->|Hne]; [|done].
  apply IH. simpl in Hl. destruct s; [done|done].
Qed.

Lemma srev_repeatByte c n : srev (repeatByte c n) = repeatByte c n.
Proof.
  induction n as [|n IH]; [done|].
  simpl. rewrite srev_cons, IH. clear IH.
  induction n as [|n IH]; [done|]. simpl. rewrite sapp_cons. by f_equal.
Qed.

Lemma trimRightByte_split c s :
  exists j, s = trimRightByte c s +:+ repeatByte c j.
Proof.
  unfold trimRightByte.
  destruct (trimLeftByte_split c (srev s)) as [j Hj]. exists j.
  rewrite <- (srev_involutive s) at 1.
  by rewrite Hj at 1; rewrite srev_app, srev_repeatByte.
Qed.

Lemma trimRightByte_last c s : lastByte (trimRightByte c s) <> Some c.
Proof.
  unfold trimRightByte.
  destruct (trimLeftByte c (srev s)) as [|a r] eqn:E; [done|].
  rewrite lastByte_srev. apply trimLeftByte_head in E. congruence.
Qed.

Lemma HasPrefix_byte c s :
  HasPrefix s (String c "") = true -> exists r, s = String c r.
Proof.
  unfold HasPrefix. destruct s as [|a r]; [done|].
  rewrite prefix_byte. intros ->%Ascii.eqb_eq. eauto.
Qed.

(** [Trim(s, c)] removes bytes [c] from both ends and nothing else. *)
Lemma Trim_spec s c :
  (exists i j, s = repeatByte c i +:+ Trim s c +:+ repeatByte c j)
  /\ HasPrefix (Trim s c) (String c "") = false
  /\ HasSuffix (Trim s c) (String c "") = false.
Proof.
  unfold Trim. split; [|split].
  - destruct (trimRightByte_split c s) as [j Hj].
    destruct (trimLeftByte_split c (trimRightByte c s)) as [i Hi].
    exists i, j. rewrite <- sapp_assoc, <- Hi. exact Hj.
  - destruct (HasPrefix _ _) eqn:E; [|done].
    apply HasPrefix_byte in E as [r E].
    by apply trimLeftByte_head in E.
  - destruct (HasSuffix _ _) eqn:E; [|done].
    apply HasSuffix_lastByte in E; [|done].
    destruct (trimLeftByte_last c _ (trimRightByte_last c s) E).
Qed.

Lemma sanitizePath_other p :
  p <> "" -> p <> "/" ->
  sanitizePath p = mapBytes slashToUnderscore (Trim p "/").
Proof.
  intros H1 H2. unfold sanitizePath.
  rewrite decide_False by (by intros [?|?]).
  apply ReplaceAll_slash.
Qed.

Lemma sanitizePath_no_slash p :
  Forall (fun a => a <> slash) (list_ascii_of_string (sanitizePath p)).
Proof.
  unfold sanitizePath. rewrite ReplaceAll_slash. apply mapBytes_no_slash.
Qed.

Lemma Trim_snoc s c : Trim (s +:+ String c "") c = Trim s c.
Proof.
  unfold Trim, trimRightByte.
  rewrite srev_app. change (srev (String c "")) with (String c "").
  rewrite sapp_cons. cbn [trimLeftByte]. by rewrite Ascii.eqb_refl.
Qed.

Lemma sanitizePath_trailing_slash p :
  p <> "/" -> sanitizePath (p +:+ "/") = sanitizePath p.
Proof.
  intros Hp. destruct p as [|a r]; [done|].
  rewrite !sanitizePath_other; [|done|done|done|].
  - by rewrite Trim_snoc.
  - rewrite sapp_cons. intros [= _ H]. by destruct r.
Qed.

(** ** [createZip] *)

Lemma zipLoop_ok E kvs :
  (forall t op, succeeds E t op = true) ->
  Forall (fun kv => is_Some (url_Parse E kv.1)) kvs ->
  forall acc t, exists es t',
    zipLoop E kvs acc t = (Ok, acc ++ es, t') /\
    Forall2 (fun kv e => exists u, url_Parse E kv.1 = Some u /\ e = (pdfName u, kv.2))
            kvs es.
Proof.
  intros Hok. induction 1 as [|[k f] kvs [u Hu] _ IH]; intros acc t.
  - exists [], t. by rewrite app_nil_r.
  - simpl in Hu. cbn [zipLoop]. rewrite Hu. unfold perform. rewrite !Hok. simpl.
    edestruct IH as (es & t' & -> & HF).
    exists ((pdfName u, f) :: es), t'. rewrite <- app_assoc. split; [done|].
    constructor; [by exists u|done].
Qed.

Lemma createZip_ok E s zipname t :
  (forall t op, succeeds E t op = true) ->
  (forall k f, pdfs s !! k = Some f -> is_Some (url_Parse E k)) ->
  rangeOrder E (pdfs s) ≡ₚ map_to_list (pdfs s) ->
  exists archive t',
    createZip E s zipname t = (Ok, archive, t') /\
    length archive = size (pdfs s) /\
    Forall2 (fun kv e => exists u, url_Parse E kv.1 = Some u /\ e = (pdfName u, kv.2))
            (rangeOrder E (pdfs s)) archive.
Proof.
  intros Hok Hparse Hperm. unfold createZip, perform. rewrite Hok. simpl.
  destruct (zipLoop_ok E (rangeOrder E (pdfs s)) Hok) with (acc := @nil ZipEntry)
    (t := t ++ [Create zipname]) as (es & t' & -> & HF).
  { apply Forall_forall. intros [k f] Hkf. simpl.
    apply (Hparse k f), elem_of_map_to_list. by rewrite <- Hperm. }
  exists es, t'. split; [done|]. split; [|done].
  rewrite <- (Forall2_length _ _ _ HF), Hperm. apply length_map_to_list.
Qed.

(** C7: the name of an archive entry is host, underscore, sanitized path
    and ".pdf"; the empty path and "/" give the path part "index"; any other
    path loses the slashes at both ends and has its remaining slashes turned
    into underscores, so that no slash is left; and when no call fails,
    archiving the N recorded artifacts produces N entries, one per artifact,
    named in this way. *)
Theorem C7_archive_entry_names :
  (forall u, pdfName u = Host u +:+ "_" +:+ sanitizePath (Path u) +:+ ".pdf")
  /\ sanitizePath "" = "index" /\ sanitizePath "/" = "index"
  /\ (forall p, p <> "" -> p <> "/" ->
        exists i j core,
          p = repeatByte slash i +:+ core +:+ repeatByte slash j /\
          HasPrefix core "/" = false /\ HasSuffix core "/" = false /\
          sanitizePath p = mapBytes slashToUnderscore core)
  /\ (forall p, Forall (fun a => a <> slash) (list_ascii_of_string (sanitizePath p)))
  /\ (forall E s zipname t,
        (forall t op, succeeds E t op = true) ->
        (forall k f, pdfs s !! k = Some f -> is_Some (url_Parse E k)) ->
        rangeOrder E (pdfs s) ≡ₚ map_to_list (pdfs s) ->
        exists archive t',
          createZip E s zipname t = (Ok, archive, t') /\
          length archive = size (pdfs s) /\
          Forall2 (fun kv e =>
                     exists u, url_Parse E kv.1 = Some u /\ e = (pdfName u, kv.2))
                  (rangeOrder E (pdfs s)) archive).
Proof.
  split; [done|]. split; [done|]. split; [done|]. split; [|split].
  - intros p H1 H2.
    destruct (Trim_spec p slash) as ((i & j & Hp) & Hpre & Hsuf).
    exists i, j, (Trim p slash). split; [exact Hp|].
    split; [exact Hpre|]. split; [exact Hsuf|].
    by apply sanitizePath_other.
  - apply sanitizePath_no_slash.
  - intros E s zipname t. apply createZip_ok.
Qed.

(** C9: the entry name does not determine the URL.  URLs that differ only
    in scheme or query string get the same name, and so do a path and the
    same path with a slash added at its end; when two different keys of
    [pdfs] parse to URLs with the same name, the archive written has two
    entries that bear it. *)
Theorem C9_entry_names_not_injective :
  (forall sc1 sc2 h p q1 q2, pdfName (mkURL sc1 h p q1) = pdfName (mkURL sc2 h p q2))
  /\ (forall sc h p q,
        p <> "/" -> pdfName (mkURL sc h (p +:+ "/") q) = pdfName (mkURL sc h p q))
  /\ (forall E s k1 k2 f1 f2 u1 u2 zipname t,
        (forall t op, succeeds E t op = true) ->
        rangeOrder E (pdfs s) ≡ₚ map_to_list (pdfs s) ->
        k1 <> k2 ->
        pdfs s = <[k1 := f1]> (<[k2 := f2]> ∅) ->
        url_Parse E k1 = Some u1 -> url_Parse E k2 = Some u2 ->
        pdfName u1 = pdfName u2 ->
        exists archive t',
          createZip E s zipname t = (Ok, archive, t') /\
          archive.*1 = [pdfName u1; pdfName u1]).
Proof.
  split; [done|]. split.
  - intros sc h p q Hp. unfold pdfName. simpl.
    by rewrite sanitizePath_trailing_slash.
  - intros E s k1 k2 f1 f2 u1 u2 zipname t Hok Hperm Hne Hs Hu1 Hu2 Hname.
    assert (Hkeys : forall k f, pdfs s !! k = Some f -> k = k1 \/ k = k2).
    { intros k f. rewrite Hs. intros Hl.
      destruct (decide (k = k1)) as [|n1]; [by left|].
      rewrite lookup_insert_ne in Hl by done.
      destruct (decide (k = k2)) as [|n2]; [by right|].
      by rewrite lookup_insert_ne, lookup_empty in Hl. }
    destruct (createZip_ok E s zipname t Hok) as (archive & t' & Hz & Hlen & HF).
    { intros k f Hl. destruct (Hkeys k f Hl) as [->| ->]; eauto. }
    { done. }
    exists archive, t'. split; [done|].
    assert (Hnames : Forall (fun e => e.1 = pdfName u1) archive).
    { apply Forall_forall. intros e He.
      apply list_elem_of_lookup in He as [i Hi].
      destruct (Forall2_lookup_r _ _ _ _ _ HF Hi) as ([k f] & Hkf & u & Hu & ->).
      simpl in *.
      assert (Hin : (k, f) ∈ map_to_list (pdfs s)).
      { rewrite <- Hperm. by eapply list_elem_of_lookup_2. }
      apply elem_of_map_to_list in Hin.
      destruct (Hkeys k f Hin) as [->| ->]; congruence. }
    assert (Hsize : size (pdfs s) = 2).
    { rewrite Hs, map_size_insert_None, map_size_insert_None, map_size_empty;
        [done|done|]. by rewrite lookup_insert_ne. }
    rewrite Hsize in Hlen.
    destruct archive as [|e1 [|e2 [|e3 archive]]]; try done.
    apply Forall_cons in Hnames as [H1 Hnames].
    apply Forall_cons in Hnames as [H2 _].
    simpl. by rewrite H1, H2.
Qed.

(** ** [ScrapeAndSave] *)

Lemma createZip_trace E s zipname t :
  exists ops, (createZip E s zipname t).2 = t ++ Create zipname :: ops.
Proof.
  unfold createZip, perform.
  destruct (succeeds E t (Create zipname)); simpl; [|by exists []].
  assert (Hloop : forall kvs acc t0, exists ops, (zipLoop E kvs acc t0).2 = t0 ++ ops).
  { induction kvs as [|[k f] kvs IH]; intros acc t0.
    - exists []. by rewrite app_nil_r.
    - cbn [zipLoop]. unfold perform.
      destruct (url_Parse E k) as [u|]; [|exists []; by rewrite app_nil_r].
      destruct (succeeds E t0 _); simpl; [|by eexists [_]].
      destruct (succeeds E (t0 ++ _) _); simpl;
        [|eexists [_; _]; by rewrite <- app_assoc].
      destruct (succeeds E ((t0 ++ _) ++ _) _); simpl;
        [|eexists [_; _; _]; by rewrite <- !app_assoc].
      edestruct IH as [ops ->]. eexists (_ :: _ :: _ :: ops).
      by rewrite <- !app_assoc. }
  destruct (Hloop (rangeOrder E (pdfs s)) [] (t ++ [Create zipname])) as [ops ->].
  exists ops. by rewrite <- app_assoc.
Qed.

(** ** Concurrent callbacks *)

Section Callbacks.

Context (E : Env) (tmpDir : string).

Lemma move_lookup i c st cs j :
  cs !! i = Some c ->
  move i c st cs !! j =
    if decide (j = i) then Some (mkCall (response c) st) else cs !! j.
Proof.
  intros Hi. unfold move. case_decide as Hj.
  - subst j. apply list_lookup_insert_eq. by eapply lookup_lt_Some.
  - by apply list_lookup_insert_ne.
Qed.

Lemma move_lookup_inv i c st cs j cl :
  cs !! i = Some c -> move i c st cs !! j = Some cl ->
  (j = i /\ cl = mkCall (response c) st) \/ (j <> i /\ cs !! j = Some cl).
Proof.
  intros Hi. rewrite (move_lookup _ _ _ _ _ Hi).
  case_decide; [intros [= <-]; by left|by right].
Qed.

Lemma move_keeps (P : Call -> Prop) i c st cs :
  cs !! i = Some c ->
  (P c -> P (mkCall (response c) st)) ->
  (exists j cl, cs !! j = Some cl /\ P cl) ->
  exists j cl, move i c st cs !! j = Some cl /\ P cl.
Proof.
  intros Hi Hc (j & cl & Hj & HP).
  destruct (decide (j = i)) as [->|Hne].
  - exists i, (mkCall (response c) st).
    rewrite (move_lookup _ _ _ _ _ Hi), decide_True by done.
    split; [done|]. apply Hc. congruence.
  - exists j, cl. by rewrite (move_lookup _ _ _ _ _ Hi), decide_False.
Qed.

Lemma move_new (P : Call -> Prop) i c st cs :
  cs !! i = Some c -> P (mkCall (response c) st) ->
  exists j cl, move i c st cs !! j = Some cl /\ P cl.
Proof.
  intros Hi HP. exists i, (mkCall (response c) st).
  by rewrite (move_lookup _ _ _ _ _ Hi), decide_True.
Qed.

Lemma move_back (P : Call -> Prop) i c st cs :
  cs !! i = Some c ->
  (P (mkCall (response c) st) -> P c) ->
  (exists j cl, move i c st cs !! j = Some cl /\ P cl) ->
  exists j cl, cs !! j = Some cl /\ P cl.
Proof.
  intros Hi Hc (j & cl & Hj & HP).
  destruct (move_lookup_inv _ _ _ _ _ _ Hi Hj) as [[-> ->]|[_ Hold]]; eauto.
Qed.

Lemma Inv_start rs : Inv E (start rs).
Proof.
  assert (Hall : forall i cl, calls (start rs) !! i = Some cl -> stage cl = AtGate).
  { intros i cl. simpl. rewrite list_lookup_fmap.
    destruct (rs !! i); simpl; [by intros [= <-]|done]. }
  split; simpl.
  - intros i cl Hi. by rewrite (Hall i cl Hi).
  - intros u Hu. by apply not_elem_of_empty in Hu.
  - intros i j ci cj Hi _ Hp. unfold passed in Hp. by rewrite (Hall i ci Hi) in Hp.
  - intros u. split; [by intros ?%elem_of_nil|].
    intros (i & cl & Hi & Ha & _). unfold afterRender in Ha.
    by rewrite (Hall i cl Hi) in Ha.
  - constructor.
  - intros u. split; [by intros ?%elem_of_nil|].
    intros (i & cl & Hi & Ha & _). by rewrite (Hall i cl Hi) in Ha.
  - constructor.
  - intros m [= <-] u. rewrite lookup_empty.
    split; [by intros [? ?]|by intros ?%elem_of_nil].
  - intros m _ i j ci cj f g Hi _ Hf. by rewrite (Hall i ci Hi) in Hf.
  - done.
Qed.

(** Moving a call to a stage outside the assignment adds no writer. *)
Lemma writers_kept i c st cs :
  cs !! i = Some c -> (forall g, st <> Writing g) ->
  forall j cj g, move i c st cs !! j = Some cj -> stage cj = Writing g ->
                 j <> i /\ cs !! j = Some cj.
Proof.
  intros Hi Hst j cj g Hj Hg.
  destruct (move_lookup_inv _ _ _ _ _ _ Hi Hj) as [[-> ->]|[Hne Hold]]; [|done].
  simpl in Hg. by destruct (Hst g).
Qed.

Lemma one_writer_kept i c st cs :
  cs !! i = Some c -> (forall g, st <> Writing g) ->
  (forall i j ci cj f g,
      cs !! i = Some ci -> cs !! j = Some cj ->
      stage ci = Writing f -> stage cj = Writing g -> i = j) ->
  forall i1 i2 c1 c2 f g,
    move i c st cs !! i1 = Some c1 -> move i c st cs !! i2 = Some c2 ->
    stage c1 = Writing f -> stage c2 = Writing g -> i1 = i2.
Proof.
  intros Hi Hst Hw i1 i2 c1 c2 f g H1 H2 Hf Hg.
  destruct (writers_kept i c st cs Hi Hst _ _ _ H1 Hf) as [_ Ho1].
  destruct (writers_kept i c st cs Hi Hst _ _ _ H2 Hg) as [_ Ho2].
  by eapply Hw.
Qed.

Lemma not_passed_AtGate c : stage c = AtGate -> ~ passed c.
Proof. intros H Hp. unfold passed in Hp. by rewrite H in Hp. Qed.

(** A call that is past the guard stays past it. *)
Lemma passed_pair_kept k c st cs :
  cs !! k = Some c ->
  (passed c -> passed (mkCall (response c) st)) ->
  (exists i j ci cj,
      i <> j /\ cs !! i = Some ci /\ cs !! j = Some cj /\ passed ci /\ passed cj) ->
  exists i j ci cj,
    i <> j /\ move k c st cs !! i = Some ci /\ move k c st cs !! j = Some cj /\
    passed ci /\ passed cj.
Proof.
  intros Hk Hp (i & j & ci & cj & Hne & Hi & Hj & Hpi & Hpj).
  assert (Hkeep : forall n cn, cs !! n = Some cn -> passed cn ->
            exists cn', move k c st cs !! n = Some cn' /\ passed cn').
  { intros n cn Hn Hpn. rewrite (move_lookup _ _ _ _ _ Hk). case_decide as Hd.
    - subst n. rewrite Hk in Hn. injection Hn as <-. eauto.
    - eauto. }
  destruct (Hkeep i ci Hi Hpi) as (ci' & Hi' & Hpi').
  destruct (Hkeep j cj Hj Hpj) as (cj' & Hj' & Hpj').
  by exists i, j, ci', cj'.
Qed.

Lemma not_afterRender_AtGate c : stage c = AtGate -> ~ afterRender c.
Proof. intros H Ha. unfold afterRender in Ha. by rewrite H in Ha. Qed.

Lemma Inv_seen i c V P cs rn rc :
  Inv E (mkConfig V P cs rn rc) ->
  cs !! i = Some c -> stage c = AtGate -> key E c ∈ V ->
  Inv E (mkConfig V P (move i c Skipped cs) rn rc).
Proof.
  intros [Hg Ho Hu Hr Hrn Hc Hcn Hp Hw Hx] Hi Hst Hk. simpl in *.
  split; simpl; try done.
  - intros j cl Hj Hne.
    destruct (move_lookup_inv _ _ _ _ _ _ Hi Hj) as [[-> ->]|[_ Hold]]; eauto.
  - intros u Hu'.
    apply (move_keeps (fun cl => passed cl /\ key E cl = u)); [done| |eauto].
    intros [Hp' _]. by apply not_passed_AtGate in Hp'.
  - intros j1 j2 c1 c2 H1 H2 Hp1 Hp2 Hkk.
    destruct (move_lookup_inv _ _ _ _ _ _ Hi H1) as [[-> ->]|[_ Ho1]]; [done|].
    destruct (move_lookup_inv _ _ _ _ _ _ Hi H2) as [[-> ->]|[_ Ho2]]; [done|].
    eauto.
  - intros u. rewrite Hr. split.
    + apply move_keeps; [done|]. intros [Ha _].
      by apply not_afterRender_AtGate in Ha.
    + apply move_back; [done|]. by intros [Ha _].
  - intros u. rewrite Hc. split.
    + apply move_keeps; [done|]. intros [Ha _]. congruence.
    + apply move_back; [done|]. by intros [Ha _].
  - intros m Hm. eapply one_writer_kept; [done|done|by eapply Hw].
  - intros HR. apply passed_pair_kept; [done| |by apply Hx].
    intros Hpc. by apply not_passed_AtGate in Hpc.
Qed.

Lemma Inv_store i c f V P cs rn rc :
  Inv E (mkConfig V P cs rn rc) ->
  cs !! i = Some c -> stage c = AtGate -> key E c ∉ V ->
  Inv E (mkConfig ({[key E c]} ∪ V) P (move i c (Rendering f) cs) rn rc).
Proof.
  intros [Hg Ho Hu Hr Hrn Hc Hcn Hp Hw Hx] Hi Hst Hk. simpl in *.
  split; simpl; try done.
  - intros j cl Hj Hne.
    destruct (move_lookup_inv _ _ _ _ _ _ Hi Hj) as [[-> ->]|[_ Hold]].
    + apply elem_of_union_l, elem_of_singleton. done.
    + apply elem_of_union_r. eauto.
  - intros u [->%elem_of_singleton|Hu']%elem_of_union.
    + by apply (move_new (fun cl => passed cl /\ key E cl = key E c)).
    + apply (move_keeps (fun cl => passed cl /\ key E cl = u)); [done| |eauto].
      intros [Hp' _]. by apply not_passed_AtGate in Hp'.
  - intros j1 j2 c1 c2 H1 H2 Hp1 Hp2 Hkk.
    destruct (move_lookup_inv _ _ _ _ _ _ Hi H1) as [[-> ->]|[_ Ho1]];
      destruct (move_lookup_inv _ _ _ _ _ _ Hi H2) as [[-> ->]|[_ Ho2]];
      [done| | |by eauto].
    + destruct Hk. change (key E c = key E c2) in Hkk. rewrite Hkk.
      eapply Hg; [done|]. intros Hat. by apply not_passed_AtGate in Hat.
    + destruct Hk. change (key E c1 = key E c) in Hkk. rewrite <- Hkk.
      eapply Hg; [done|]. intros Hat. by apply not_passed_AtGate in Hat.
  - intros u. rewrite Hr. split.
    + apply move_keeps; [done|]. intros [Ha _].
      by apply not_afterRender_AtGate in Ha.
    + apply move_back; [done|]. by intros [Ha _].
  - intros u. rewrite Hc. split.
    + apply move_keeps; [done|]. intros [Ha _]. congruence.
    + apply move_back; [done|]. by intros [Ha _].
  - intros m Hm. eapply one_writer_kept; [done|done|by eapply Hw].
  - intros HR. apply passed_pair_kept; [done| |by apply Hx].
    intros Hpc. by apply not_passed_AtGate in Hpc.
Qed.

Lemma Inv_render i c f st V P cs rn rc :
  Inv E (mkConfig V P cs rn rc) ->
  cs !! i = Some c -> stage c = Rendering f ->
  st = Recording f \/ st = Failed ->
  Inv E (mkConfig V P (move i c st cs) (rn ++ [key E c]) rc).
Proof.
  intros [Hg Ho Hu Hr Hrn Hc Hcn Hp Hw Hx] Hi Hst Hnew. simpl in *.
  assert (Hpc : passed c) by (unfold passed; by rewrite Hst).
  assert (Hpn : passed (mkCall (response c) st))
    by (unfold passed; destruct Hnew as [->| ->]; done).
  assert (Han : afterRender (mkCall (response c) st))
    by (unfold afterRender; destruct Hnew as [->| ->]; done).
  assert (Hac : ~ afterRender c) by (unfold afterRender; rewrite Hst; tauto).
  assert (Hdn : stage (mkCall (response c) st) <> Done)
    by (destruct Hnew as [->| ->]; done).
  split; simpl; try done.
  - intros j cl Hj Hne.
    destruct (move_lookup_inv _ _ _ _ _ _ Hi Hj) as [[-> ->]|[_ Hold]]; [|eauto].
    eapply (Hg i c); [done|]. by rewrite Hst.
  - intros u Hu'.
    apply (move_keeps (fun cl => passed cl /\ key E cl = u)); [done| |eauto].
    by intros [_ <-].
  - intros j1 j2 c1 c2 H1 H2 Hp1 Hp2 Hkk.
    destruct (move_lookup_inv _ _ _ _ _ _ Hi H1) as [[-> ->]|[Hn1 Ho1]];
      destruct (move_lookup_inv _ _ _ _ _ _ Hi H2) as [[-> ->]|[Hn2 Ho2]];
      [done| | |by eauto].
    + eapply (Hu i j2 c c2); eauto.
    + eapply (Hu j1 i c1 c); eauto.
  - intros u. rewrite elem_of_app, Hr, list_elem_of_singleton. split.
    + intros [Hold| ->].
      * apply move_keeps; [done| |done]. by intros [Ha _].
      * by apply (move_new (fun cl => afterRender cl /\ key E cl = key E c)).
    + intros (j & cl & Hj & Ha & Hk).
      destruct (move_lookup_inv _ _ _ _ _ _ Hi Hj) as [[-> ->]|[_ Hold]].
      * right. by rewrite <- Hk.
      * left. eauto.
  - apply NoDup_app. split; [done|]. split; [|apply NoDup_singleton].
    intros u Hin ->%list_elem_of_singleton.
    apply Hr in Hin as (j & cl & Hj & Ha & Hk).
    assert (j = i) as ->.
    { eapply Hu; eauto. unfold passed, afterRender in *. by destruct (stage cl). }
    by rewrite Hi in Hj; injection Hj as <-.
  - intros u. rewrite Hc. split.
    + apply move_keeps; [done|]. intros [Ha _]. congruence.
    + apply move_back; [done|]. by intros [Ha _].
  - intros m Hm. eapply one_writer_kept; [done| |by eapply Hw].
    intros g. destruct Hnew as [->| ->]; done.
  - intros HR. apply passed_pair_kept; [done| |by apply Hx].
    intros _. destruct Hnew as [->| ->]; done.
Qed.

(** Entering the assignment: alone, or racing with a call inside it. *)
Lemma Inv_write_begin i c f V P P' cs rn rc :
  Inv E (mkConfig V P cs rn rc) ->
  cs !! i = Some c -> stage c = Recording f ->
  (P' = P /\ noWriter cs) \/
  (P' = Raced /\ exists j cj g, cs !! j = Some cj /\ stage cj = Writing g) ->
  Inv E (mkConfig V P' (move i c (Writing f) cs) rn rc).
Proof.
  intros [Hg Ho Hu Hr Hrn Hc Hcn Hp Hw Hx] Hi Hst Hnew. simpl in *.
  assert (Hpc : passed c) by (unfold passed; by rewrite Hst).
  assert (Hac : afterRender c) by (unfold afterRender; by rewrite Hst).
  split; simpl; try done.
  - intros j cl Hj Hne.
    destruct (move_lookup_inv _ _ _ _ _ _ Hi Hj) as [[-> ->]|[_ Hold]]; [|eauto].
    eapply (Hg i c); [done|]. by rewrite Hst.
  - intros u Hu'.
    apply (move_keeps (fun cl => passed cl /\ key E cl = u)); [done| |eauto].
    by intros [_ <-].
  - intros j1 j2 c1 c2 H1 H2 Hp1 Hp2 Hkk.
    destruct (move_lookup_inv _ _ _ _ _ _ Hi H1) as [[-> ->]|[Hn1 Ho1]];
      destruct (move_lookup_inv _ _ _ _ _ _ Hi H2) as [[-> ->]|[Hn2 Ho2]];
      [done| | |by eauto].
    + eapply (Hu i j2 c c2); eauto.
    + eapply (Hu j1 i c1 c); eauto.
  - intros u. rewrite Hr. split.
    + apply move_keeps; [done|]. by intros [_ <-].
    + apply move_back; [done|]. by intros [_ <-].
  - intros u. rewrite Hc. split.
    + apply move_keeps; [done|]. intros [Ha _]. congruence.
    + apply move_back; [done|]. by intros [Ha _].
  - intros m Hm. destruct Hnew as [[-> _]|[-> _]]; [by apply Hp|done].
  - intros m Hm. destruct Hnew as [[-> Hnw]|[-> _]]; [|done].
    intros j1 j2 c1 c2 g1 g2 H1 H2 Hg1 Hg2.
    unfold noWriter in Hnw. rewrite Forall_forall in Hnw.
    destruct (move_lookup_inv _ _ _ _ _ _ Hi H1) as [[-> ->]|[Hn1 Ho1]];
      destruct (move_lookup_inv _ _ _ _ _ _ Hi H2) as [[-> ->]|[Hn2 Ho2]];
      [done| | |].
    + destruct (Hnw c2 (list_elem_of_lookup_2 _ _ _ Ho2) g2 Hg2).
    + destruct (Hnw c1 (list_elem_of_lookup_2 _ _ _ Ho1) g1 Hg1).
    + destruct (Hnw c1 (list_elem_of_lookup_2 _ _ _ Ho1) g1 Hg1).
  - intros HR. destruct Hnew as [[-> _]|[_ (j & cj & g & Hj & Hgj)]].
    + apply passed_pair_kept; [done|done|by apply Hx].
    + assert (Hne : i <> j).
      { intros ->. rewrite Hi in Hj. injection Hj as <-. congruence. }
      exists i, j, (mkCall (response c) (Writing f)), cj.
      split; [done|]. rewrite !(move_lookup _ _ _ _ _ Hi).
      rewrite decide_True by done. rewrite decide_False by done.
      split; [done|]. split; [done|]. split; [done|].
      unfold passed. by rewrite Hgj.
Qed.

(** Leaving the assignment. *)
Lemma Inv_write_end i c f V P cs rn rc :
  Inv E (mkConfig V P cs rn rc) ->
  cs !! i = Some c -> stage c = Writing f ->
  Inv E (mkConfig V (assign (key E c) f P) (move i c Done cs) rn (rc ++ [key E c])).
Proof.
  intros [Hg Ho Hu Hr Hrn Hc Hcn Hp Hw Hx] Hi Hst. simpl in *.
  assert (Hpc : passed c) by (unfold passed; by rewrite Hst).
  assert (Hac : afterRender c) by (unfold afterRender; by rewrite Hst).
  split; simpl; try done.
  - intros j cl Hj Hne.
    destruct (move_lookup_inv _ _ _ _ _ _ Hi Hj) as [[-> ->]|[_ Hold]]; [|eauto].
    eapply (Hg i c); [done|]. by rewrite Hst.
  - intros u Hu'.
    apply (move_keeps (fun cl => passed cl /\ key E cl = u)); [done| |eauto].
    by intros [_ <-].
  - intros j1 j2 c1 c2 H1 H2 Hp1 Hp2 Hkk.
    destruct (move_lookup_inv _ _ _ _ _ _ Hi H1) as [[-> ->]|[Hn1 Ho1]];
      destruct (move_lookup_inv _ _ _ _ _ _ Hi H2) as [[-> ->]|[Hn2 Ho2]];
      [done| | |by eauto].
    + eapply (Hu i j2 c c2); eauto.
    + eapply (Hu j1 i c1 c); eauto.
  - intros u. rewrite Hr. split.
    + apply move_keeps; [done|]. by intros [_ <-].
    + apply move_back; [done|]. by intros [_ <-].
  - intros u. rewrite elem_of_app, Hc, list_elem_of_singleton. split.
    + intros [Hold| ->].
      * apply move_keeps; [done| |done]. intros [Ha _]. congruence.
      * by apply (move_new (fun cl => stage cl = Done /\ key E cl = key E c)).
    + intros (j & cl & Hj & Ha & Hk).
      destruct (move_lookup_inv _ _ _ _ _ _ Hi Hj) as [[-> ->]|[_ Hold]].
      * right. by rewrite <- Hk.
      * left. eauto.
  - apply NoDup_app. split; [done|]. split; [|apply NoDup_singleton].
    intros u Hin ->%list_elem_of_singleton.
    apply Hc in Hin as (j & cl & Hj & Ha & Hk).
    assert (j = i) as ->.
    { eapply Hu; eauto. unfold passed. by rewrite Ha. }
    rewrite Hi in Hj. injection Hj as <-. congruence.
  - intros m Hm u. destruct P as [m0|]; [|done]. injection Hm as <-.
    rewrite elem_of_app, list_elem_of_singleton, <- (Hp m0 eq_refl).
    rewrite lookup_insert_is_Some. split.
    + intros [->|[_ H]]; [by right|by left].
    + intros [H| ->]; [|by left].
      destruct (decide (key E c = u)); [by left|by right].
  - intros m Hm. destruct P as [m0|]; [|done].
    eapply one_writer_kept; [done|done|by eapply Hw].
  - intros HR. apply passed_pair_kept; [done|done|].
    apply Hx. by destruct P.
Qed.

Lemma step_Inv c c' : Inv E c -> step E tmpDir c c' -> Inv E c'.
Proof.
  intros HI Hs. destruct Hs.
  - by eapply Inv_seen.
  - by eapply Inv_store.
  - eapply Inv_render; eauto.
  - eapply Inv_render; eauto.
  - eapply Inv_write_begin; eauto.
  - eapply Inv_write_begin; eauto 10.
  - by eapply Inv_write_end.
Qed.

Lemma reachable_Inv rs c : rtc (step E tmpDir) (start rs) c -> Inv E c.
Proof.
  intros Hr.
  eapply (rtc_ind_r (R := step E tmpDir) (fun c => Inv E c) (start rs));
    [apply Inv_start| |exact Hr].
  intros c1 c2 _ Hs HI. by eapply step_Inv.
Qed.

Lemma move_lookup_same i c st cs :
  cs !! i = Some c -> move i c st cs !! i = Some (mkCall (response c) st).
Proof. intros Hi. by rewrite (move_lookup _ _ _ _ _ Hi), decide_True. Qed.

Lemma noWriter_move i c st cs :
  noWriter cs -> (forall g, st <> Writing g) -> noWriter (move i c st cs).
Proof. intros Hn Hst. by apply Forall_insert. Qed.

(** The callback run on its own, as [onResponse] describes it, is one of
    the runs of the step relation: with no other call inside the
    assignment, the map stays intact and ends as [onResponse] leaves it. *)
Lemma onResponse_as_steps r s t cs i rn rc :
  cs !! i = Some (mkCall r AtGate) -> noWriter cs ->
  exists cs' rn' rc',
    rtc (step E tmpDir)
        (mkConfig (visited s) (Intact (pdfs s)) cs rn rc)
        (mkConfig (visited (onResponse E tmpDir r (s, t)).1)
                  (Intact (pdfs (onResponse E tmpDir r (s, t)).1)) cs' rn' rc').
Proof.
  intros Hi Hnw. unfold onResponse. case_decide as Hk.
  - do 3 eexists. apply rtc_once.
    by apply (step_seen _ _ i (mkCall r AtGate)).
  - set (f := path_Join E tmpDir (pdfName (Request_URL r))).
    pose proof (step_store E tmpDir i (mkCall r AtGate) (visited s) (Intact (pdfs s))
                  cs rn rc Hi eq_refl Hk) as Hstore.
    pose proof (move_lookup_same i (mkCall r AtGate) (Rendering f) cs Hi) as Hi1.
    destruct (createPDF E _ f (Body r) t) as [[|e] t1]; simpl.
    + do 3 eexists. eapply rtc_l; [exact Hstore|].
      eapply rtc_l;
        [exact (step_render_ok E tmpDir i (mkCall r (Rendering f)) f _ _ _ _ _
                  Hi1 eq_refl)|].
      eapply rtc_l.
      { apply (step_write_alone E tmpDir i (mkCall r (Recording f)) f); [|done|].
        - by apply (move_lookup_same i (mkCall r (Rendering f))).
        - by repeat apply noWriter_move. }
      eapply rtc_l; [|apply rtc_refl].
      apply (step_write_end E tmpDir i (mkCall r (Writing f)) f); [|done].
      apply (move_lookup_same i (mkCall r (Recording f))).
      by apply (move_lookup_same i (mkCall r (Rendering f))).
    + do 3 eexists. eapply rtc_l; [exact Hstore|].
      eapply rtc_l; [|apply rtc_refl].
      exact (step_render_fail E tmpDir i (mkCall r (Rendering f)) f _ _ _ _ _
               Hi1 eq_refl).
Qed.

End Callbacks.

(** C10: under concurrent dispatch of the response callbacks, however
    their steps interleave, with [LoadOrStore] one atomic test-and-set
    (l.94): at most one call per URL gets past the guard, so [createPDF]
    is called at most once per URL and [pdfs] is assigned at most once per
    URL.  The assignment itself (l.118) writes a plain map without a lock:
    two calls can be inside it at once only if both are past the guard,
    hence only for two different URLs; unless that has happened the keys
    of [pdfs] are exactly the URLs so recorded.  Once all calls have
    returned, every URL a callback was invoked for has had its one
    [createPDF] call. *)
Theorem C10_at_most_one_artifact_per_url
    (E : Env) (tmpDir : string) (rs : list Response) (c : Config) :
  rtc (step E tmpDir) (start rs) c ->
  (forall i j ci cj,
      calls c !! i = Some ci -> calls c !! j = Some cj ->
      passed ci -> passed cj -> key E ci = key E cj -> i = j)
  /\ NoDup (rendered c)
  /\ NoDup (recorded c)
  /\ (forall m, pdfMap c = Intact m ->
       forall u, is_Some (m !! u) <-> u ∈ recorded c)
  /\ (pdfMap c = Raced ->
      exists i j ci cj,
        calls c !! i = Some ci /\ calls c !! j = Some cj /\
        passed ci /\ passed cj /\ key E ci <> key E cj)
  /\ (finished c ->
      forall i cl, calls c !! i = Some cl -> key E cl ∈ rendered c).
Proof.
  intros Hr. apply reachable_Inv in Hr as [Hg Ho Hu Hrn Hrd Hc Hcd Hp Hw Hx].
  split; [done|]. split; [done|]. split; [done|]. split; [done|]. split.
  - intros HR. destruct (Hx HR) as (i & j & ci & cj & Hne & Hi & Hj & Hpi & Hpj).
    exists i, j, ci, cj. repeat (split; [done|]).
    intros Hk. apply Hne. by eapply Hu.
  - intros Hfin i cl Hi.
    assert (Hv : key E cl ∈ visitedSet c).
    { eapply Hg; [done|]. destruct (Hfin i cl Hi) as [->|[->| ->]]; done. }
    apply Ho in Hv as (j & cj & Hj & Hpj & Hk).
    apply Hrn. exists j, cj. split; [done|]. split; [|done].
    unfold passed, afterRender in *.
    destruct (Hfin j cj Hj) as [H|[H|H]]; rewrite H in *; done.
Qed.

(** ** Instances *)

Lemma C1_two_trailing_newlines_witness :
  ("Hello World" +:+ nl +:+ nl = "" \/
   exists t, "Hello World" +:+ nl +:+ nl = t +:+ nl +:+ nl /\ t <> "" /\
             lastByte t <> Some (ascii_of_N 10))
  /\ (forall doc,
        Some (page [Element "p" [Text "Hello World"]]) = Some doc ->
        textBuilder (extractText None false doc initWalk) = "" ->
        "Hello World" +:+ nl +:+ nl = "").
Proof.
  apply (C1_two_trailing_newlines
           (fun _ => Some (page [Element "p" [Text "Hello World"]]))
           "<p>Hello World</p>" ("Hello World" +:+ nl +:+ nl)).
  vm_compute. reflexivity.
Defined.

Lemma C2_suppressed_nodes_witness :
  extractText None false (mkNode ElementNode "script" [Text "alert(1);"]) initWalk
    = initWalk
  /\ stripParsed Sample.quietDoc = "".
Proof.
  split.
  - apply (proj1 C2_suppressed_nodes). right. split; [reflexivity|].
    apply list_elem_of_here.
  - apply (proj2 C2_suppressed_nodes). vm_compute. reflexivity.
Defined.

Lemma C3_styling_walks_children_witness :
  (forall par hasNext cs w,
      extractText par hasNext (Element "strong" cs) w =
        forChildren (extractText (Some (asParent par hasNext "strong"))) cs w)
  /\ (forall gp pHasNext hasNext txt w,
        extractText (Some (mkParent "strong" gp pHasNext)) hasNext (Text txt) w =
          if decide (TrimRightSpace txt = "") then w
          else inlineText (TrimRightSpace txt) w).
Proof.
  apply (C3_styling_walks_children "strong"). vm_compute. reflexivity.
Defined.

Lemma C4_anchor_text_in_tree_witness :
  extractText None false
    (Element "nav" [Element "a" [Text "Home"]; Element "a" [Text " About "]])
    initWalk
  = mkWalk ("Home" +:+ nl +:+ "About" +:+ nl) false true.
Proof.
  exact (proj1 (proj2 (C4_anchor_text_in_tree " About " ltac:(vm_compute; discriminate)))
           None false "nav" [Element "a" [Text "Home"]] [] [] [] initWalk eq_refl).
Defined.

Lemma C5_heading_text_witness :
  extractText (Some (mkParent "h2" (Some "body") true)) true (Text "Subtitle")
              (mkWalk "Home" false true)
  = mkWalk ("Home" +:+ nl +:+ "Subtitle" +:+ nl +:+ nl) true false.
Proof.
  apply (proj1 C5_heading_text "h2" (Some "body") true true "Subtitle"
               (mkWalk "Home" false true)).
  - apply list_elem_of_further, list_elem_of_here.
  - vm_compute. discriminate.
Defined.

Lemma C6_clean_mode_witness :
  pdfContent (Sample.env []) (NewScraper true true) "<h1>T</h1><p>C</p>"
    = Some (cleanContent ("T" +:+ nl +:+ nl +:+ "C" +:+ nl +:+ nl))
  /\ snd (createPDF (Sample.env []) (NewScraper true true) "out.pdf"
                    "<h1>T</h1><p>C</p>" [])
     = [] ++ [OutputFileAndClose "out.pdf"
                (pdfCells (cleanContent ("T" +:+ nl +:+ nl +:+ "C" +:+ nl +:+ nl)))].
Proof.
  apply (proj1 (proj2 (proj2 C6_clean_mode))).
  - reflexivity.
  - reflexivity.
  - vm_compute. reflexivity.
Defined.

Lemma Sample_twoPdfs_parse k f :
  pdfs Sample.twoPdfs !! k = Some f -> is_Some (url_Parse (Sample.env []) k).
Proof.
  unfold Sample.twoPdfs. simpl. intros H.
  destruct (decide (k = "http://example.com/a")) as [->|n1]; [by eexists|].
  rewrite lookup_insert_ne in H by done.
  destruct (decide (k = "http://example.com/a?x=1")) as [->|n2]; [by eexists|].
  by rewrite lookup_insert_ne, lookup_empty in H.
Defined.

Lemma C7_archive_entry_names_witness :
  (exists i j core,
      "/docs/a/" = repeatByte slash i +:+ core +:+ repeatByte slash j /\
      HasPrefix core "/" = false /\ HasSuffix core "/" = false /\
      sanitizePath "/docs/a/" = mapBytes slashToUnderscore core)
  /\ (exists archive t',
        createZip (Sample.env []) Sample.twoPdfs "out/example.com.zip" []
          = (Ok, archive, t') /\
        length archive = size (pdfs Sample.twoPdfs) /\
        Forall2 (fun kv e =>
                   exists u, url_Parse (Sample.env []) kv.1 = Some u /\
                             e = (pdfName u, kv.2))
                (rangeOrder (Sample.env []) (pdfs Sample.twoPdfs)) archive).
Proof.
  split.
  - apply (proj1 (proj2 (proj2 (proj2 C7_archive_entry_names)))); discriminate.
  - apply (proj2 (proj2 (proj2 (proj2 (proj2 C7_archive_entry_names))))).
    + reflexivity.
    + apply Sample_twoPdfs_parse.
    + reflexivity.
Defined.

Lemma C9_entry_names_not_injective_witness :
  pdfName (mkURL "http" "example.com" ("/a" +:+ "/") "")
    = pdfName (mkURL "http" "example.com" "/a" "")
  /\ exists archive t',
       createZip (Sample.env []) Sample.twoPdfs "out/example.com.zip" []
         = (Ok, archive, t') /\
       archive.*1 = [pdfName Sample.urlA; pdfName Sample.urlA].
Proof.
  split.
  - apply (proj1 (proj2 C9_entry_names_not_injective)). discriminate.
  - apply (proj2 (proj2 C9_entry_names_not_injective) (Sample.env []) Sample.twoPdfs
             "http://example.com/a" "http://example.com/a?x=1"
             "/tmp/webscraper1/example.com_a.pdf" "/tmp/webscraper1/example.com_a.pdf"
             Sample.urlA Sample.urlAq).
    + reflexivity.
    + reflexivity.
    + discriminate.
    + reflexivity.
    + reflexivity.
    + reflexivity.
    + reflexivity.
Defined.

Lemma Sample_run :
  rtc (step (Sample.env []) "/tmp/webscraper1")
      (start [Sample.pageA; Sample.pageA]) Sample.ranTwice.
Proof.
  eapply rtc_l.
  { apply (step_store _ _ 0 (mkCall Sample.pageA AtGate));
      [reflexivity|reflexivity|apply not_elem_of_empty]. }
  eapply rtc_l.
  { apply (step_seen _ _ 1 (mkCall Sample.pageA AtGate));
      [reflexivity|reflexivity|].
    apply elem_of_union_l, elem_of_singleton. reflexivity. }
  eapply rtc_l.
  { eapply (step_render_ok _ _ 0); reflexivity. }
  eapply rtc_l.
  { apply (step_write_alone _ _ 0
             (mkCall Sample.pageA (Recording "/tmp/webscraper1/example.com_a.pdf"))
             "/tmp/webscraper1/example.com_a.pdf");
      [reflexivity|reflexivity|].
    repeat constructor; intros g; discriminate. }
  eapply rtc_l.
  { eapply (step_write_end _ _ 0); reflexivity. }
  apply rtc_refl.
Defined.

(** Two different URLs: both calls can be inside the unguarded assignment
    at once. *)
Lemma Sample_race :
  rtc (step (Sample.env []) "/tmp/webscraper1")
      (start [Sample.pageA; Sample.rootResponse]) Sample.raced.
Proof.
  eapply rtc_l.
  { apply (step_store _ _ 0 (mkCall Sample.pageA AtGate));
      [reflexivity|reflexivity|apply not_elem_of_empty]. }
  eapply rtc_l.
  { apply (step_store _ _ 1 (mkCall Sample.rootResponse AtGate));
      [reflexivity|reflexivity|].
    intros [H|H]%elem_of_union; [|by apply not_elem_of_empty in H].
    apply elem_of_singleton in H. discriminate H. }
  eapply rtc_l.
  { eapply (step_render_ok _ _ 0); reflexivity. }
  eapply rtc_l.
  { eapply (step_render_ok _ _ 1); reflexivity. }
  eapply rtc_l.
  { apply (step_write_alone _ _ 0
             (mkCall Sample.pageA (Recording "/tmp/webscraper1/example.com_a.pdf"))
             "/tmp/webscraper1/example.com_a.pdf");
      [reflexivity|reflexivity|].
    repeat constructor; intros g; discriminate. }
  eapply rtc_l.
  { eapply (step_write_race _ _ 1 _ _ 0); reflexivity. }
  apply rtc_refl.
Qed.

Lemma C10_at_most_one_artifact_per_url_witness :
  (forall i j ci cj,
      calls Sample.ranTwice !! i = Some ci -> calls Sample.ranTwice !! j = Some cj ->
      passed ci -> passed cj ->
      key (Sample.env []) ci = key (Sample.env []) cj -> i = j)
  /\ NoDup (rendered Sample.ranTwice)
  /\ NoDup (recorded Sample.ranTwice)
  /\ (forall m, pdfMap Sample.ranTwice = Intact m ->
       forall u, is_Some (m !! u) <-> u ∈ recorded Sample.ranTwice)
  /\ (pdfMap Sample.ranTwice = Raced ->
      exists i j ci cj,
        calls Sample.ranTwice !! i = Some ci /\ calls Sample.ranTwice !! j = Some cj /\
        passed ci /\ passed cj /\ key (Sample.env []) ci <> key (Sample.env []) cj)
  /\ (finished Sample.ranTwice ->
      forall i cl, calls Sample.ranTwice !! i = Some cl ->
                   key (Sample.env []) cl ∈ rendered Sample.ranTwice).
Proof.
  apply (C10_at_most_one_artifact_per_url (Sample.env []) "/tmp/webscraper1"
           [Sample.pageA; Sample.pageA] Sample.ranTwice).
  apply Sample_run.
Defined.

(* ===================================================================== *)
(** * Further properties of the walk *)
(* ===================================================================== *)

(** The two remaining cases of [TestStripHTMLTags]. *)

Example test_with_comments :
  stripParsed
    (Document [Comment " This is a comment ";
               Element "html" [Element "head" [];
                               Element "body" [Element "p" [Text "Actual content"];
                                               Sample.ws;
                                               Comment " Another comment "]]])
  = "Actual content" +:+ nl +:+ nl.
Proof. vm_compute. reflexivity. Qed.

Example test_with_script_and_style :
  stripParsed
    (Document [Element "html" [
       Element "head" [Element "style" [Text "body { color: red; }"]; Sample.ws;
                       Element "script" [Text "console.log(1);"]; Sample.ws];
       Element "body" [Element "p" [Text "Real content"]]]])
  = "Real content" +:+ nl +:+ nl.
Proof. vm_compute. reflexivity. Qed.

Section WalkFacts.

Implicit Types w : Walk.

Lemma WriteString_onto b0 s w : WriteString s (onto b0 w) = onto b0 (WriteString s w).
Proof. unfold WriteString, onto. simpl. by rewrite sapp_assoc. Qed.

Lemma setFlags_onto b0 blk txt w :
  setFlags blk txt (onto b0 w) = onto b0 (setFlags blk txt w).
Proof. done. Qed.

Lemma emit_onto par text b0 w :
  emit par text (onto b0 w) = onto b0 (emit par text w).
Proof.
  unfold emit. destruct par as [p|].
  - repeat case_decide; repeat destruct (member _ _);
      change (lastNodeWasBlock (onto b0 w)) with (lastNodeWasBlock w);
      change (lastNodeWasText (onto b0 w)) with (lastNodeWasText w);
      cbv zeta;
      repeat match goal with |- context [if ?b then _ else _] => destruct b end;
      rewrite ?WriteString_onto, ?setFlags_onto; done.
  - change (lastNodeWasText (onto b0 w)) with (lastNodeWasText w). cbv zeta.
    destruct (lastNodeWasText w); rewrite ?WriteString_onto; done.
Qed.

Lemma visitText_onto par d b0 w :
  visitText par d (onto b0 w) = onto b0 (visitText par d w).
Proof. unfold visitText. cbv zeta. case_decide; [done|apply emit_onto]. Qed.

Lemma forChildren_onto {A} (f : bool -> A -> Walk -> Walk) cs b0 :
  Forall (fun c => forall hasNext w, f hasNext c (onto b0 w) = onto b0 (f hasNext c w)) cs ->
  forall w, forChildren f cs (onto b0 w) = onto b0 (forChildren f cs w).
Proof.
  induction 1 as [|c cs Hc _ IH]; intros w; [done|].
  by rewrite !forChildren_cons, Hc, IH.
Qed.

Lemma extractText_onto n :
  forall par hasNext b0 w,
    extractText par hasNext n (onto b0 w) = onto b0 (extractText par hasNext n w).
Proof.
  induction n as [ty d cs IH] using Node_forall_ind.
  intros par hasNext b0 w. rewrite !extractText_eq.
  destruct (suppressed ty d); [done|].
  assert (Hkids : forall p w0,
             forChildren (extractText p) cs (onto b0 w0) =
             onto b0 (forChildren (extractText p) cs w0)).
  { intros p w0. apply forChildren_onto.
    eapply Forall_impl; [exact IH|]. intros c Hc hn w1. apply Hc. }
  destruct (bool_decide (ty = ElementNode) && stylingTags d); [apply Hkids|].
  destruct (bool_decide (ty = TextNode)); [|apply Hkids].
  by rewrite visitText_onto, Hkids.
Qed.

(** The two flags are not both set. *)
Lemma emit_Some_flags p text w :
  lastNodeWasBlock (emit (Some p) text w) && lastNodeWasText (emit (Some p) text w)
  = false.
Proof.
  unfold emit. repeat case_decide; repeat destruct (member _ _); done.
Qed.

Lemma visitText_Some_flags p d w :
  lastNodeWasBlock w && lastNodeWasText w = false ->
  lastNodeWasBlock (visitText (Some p) d w) && lastNodeWasText (visitText (Some p) d w)
  = false.
Proof.
  intros Hw. unfold visitText. cbv zeta. case_decide; [done|apply emit_Some_flags].
Qed.

Lemma forChildren_preserves {A} (P : Walk -> Prop) (f : bool -> A -> Walk -> Walk) cs :
  Forall (fun c => forall hasNext w, P w -> P (f hasNext c w)) cs ->
  forall w, P w -> P (forChildren f cs w).
Proof.
  induction 1 as [|c cs Hc _ IH]; intros w Hw; [done|].
  rewrite forChildren_cons. apply IH, Hc, Hw.
Qed.

Lemma extractText_Some_flags n :
  forall p hasNext w,
    lastNodeWasBlock w && lastNodeWasText w = false ->
    lastNodeWasBlock (extractText (Some p) hasNext n w)
    && lastNodeWasText (extractText (Some p) hasNext n w) = false.
Proof.
  induction n as [ty d cs IH] using Node_forall_ind.
  intros p hasNext w Hw. rewrite extractText_eq.
  destruct (suppressed ty d); [done|].
  assert (Hkids : forall q w0,
             lastNodeWasBlock w0 && lastNodeWasText w0 = false ->
             lastNodeWasBlock (forChildren (extractText (Some q)) cs w0)
             && lastNodeWasText (forChildren (extractText (Some q)) cs w0) = false).
  { intros q w0.
    apply (forChildren_preserves
             (fun w => lastNodeWasBlock w && lastNodeWasText w = false)).
    eapply Forall_impl; [exact IH|]. intros c Hc hn w1. apply Hc. }
  destruct (bool_decide (ty = ElementNode) && stylingTags d); [by apply Hkids|].
  apply Hkids. destruct (bool_decide (ty = TextNode)); [|done].
  by apply visitText_Some_flags.
Qed.

End WalkFacts.

(** X1: what a node appends and how it leaves the two flags depend on the
    flags it is visited with and not on the text built before it: visiting
    with earlier output in front gives the same walk with that output in
    front.  In particular the walk only appends to the builder. *)
Theorem X1_walk_appends_only (par : option Parent) (hasNext : bool) (n : Node)
    (b0 : string) (w : Walk) :
  extractText par hasNext n (onto b0 w) = onto b0 (extractText par hasNext n w)
  /\ textBuilder (extractText par hasNext n w)
     = textBuilder w +:+
       textBuilder (extractText par hasNext n
                      (mkWalk "" (lastNodeWasBlock w) (lastNodeWasText w))).
Proof.
  split; [apply extractText_onto|].
  pose proof (extractText_onto n par hasNext (textBuilder w)
                (mkWalk "" (lastNodeWasBlock w) (lastNodeWasText w))) as H.
  unfold onto in H at 1. simpl in H. rewrite sapp_nil_r in H.
  destruct w as [b blk txt]. simpl in *. by rewrite H.
Qed.

(** X2: during the walk of a document, started as [stripHTMLTags] starts
    it, lastNodeWasBlock and lastNodeWasText are never both set at the end
    of a visit. *)
Theorem X2_flags_exclusive (hasNext : bool) (doc : Node) :
  lastNodeWasBlock (extractText None hasNext doc initWalk)
  && lastNodeWasText (extractText None hasNext doc initWalk) = false.
Proof.
  destruct doc as [ty d cs]. rewrite extractText_eq.
  destruct (suppressed ty d); [done|].
  assert (Hkids : forall q w0,
             lastNodeWasBlock w0 && lastNodeWasText w0 = false ->
             lastNodeWasBlock (forChildren (extractText (Some q)) cs w0)
             && lastNodeWasText (forChildren (extractText (Some q)) cs w0) = false).
  { intros q w0.
    apply (forChildren_preserves
             (fun w => lastNodeWasBlock w && lastNodeWasText w = false)).
    apply Forall_forall. intros c _ hn w1. apply extractText_Some_flags. }
  destruct (bool_decide (ty = ElementNode) && stylingTags d); [by apply Hkids|].
  apply Hkids. destruct (bool_decide (ty = TextNode)); [|done].
  unfold visitText. cbv zeta. case_decide; [done|].
  unfold emit, initWalk. simpl. done.
Qed.

(** X3: a Text node under a [p] element whose trimmed text is not empty
    appends the text and two line feeds, and leaves lastNodeWasBlock true
    and lastNodeWasText false, whatever came before. *)
Theorem X3_paragraph_text (gp : option string) (pHasNext hasNext : bool)
    (txt : string) (w : Walk) :
  TrimSpace txt <> "" ->
  extractText (Some (mkParent "p" gp pHasNext)) hasNext (Text txt) w =
    mkWalk (textBuilder w +:+ TrimSpace txt +:+ nl +:+ nl) true false.
Proof.
  intros Hne. unfold Text. rewrite extractText_eq. simpl.
  unfold visitText, trimmedText. simpl.
  rewrite decide_False by done. unfold emit. simpl.
  unfold setFlags, WriteString. simpl. by rewrite sapp_assoc.
Qed.

(** X4: a Text node under an [li] element whose trimmed text is not empty
    appends the bullet, the text and one line feed, and leaves both flags
    false. *)
Theorem X4_list_item_text (gp : option string) (pHasNext hasNext : bool)
    (txt : string) (w : Walk) :
  TrimSpace txt <> "" ->
  extractText (Some (mkParent "li" gp pHasNext)) hasNext (Text txt) w =
    mkWalk (textBuilder w +:+ bullet +:+ TrimSpace txt +:+ nl) false false.
Proof.
  intros Hne. unfold Text. rewrite extractText_eq. simpl.
  unfold visitText, trimmedText. simpl.
  rewrite decide_False by done. unfold emit. simpl.
  unfold setFlags, WriteString. simpl. by rewrite !sapp_assoc.
Qed.

(** X5: a Text node whose parent's tag is neither a styling tag nor one of
    p, li, h1..h6, a (a div, a td, the body) is trimmed on both sides and,
    when something is left, written after a single space if the last
    emission was inline text, leaving lastNodeWasBlock false and
    lastNodeWasText true; when nothing is left the walk is unchanged. *)
Theorem X5_other_parent_text (d : string) (gp : option string)
    (pHasNext hasNext : bool) (txt : string) (w : Walk) :
  d ∉ ["p"; "li"; "h1"; "h2"; "h3"; "h4"; "h5"; "h6"; "a"] ->
  stylingTags d = false ->
  extractText (Some (mkParent d gp pHasNext)) hasNext (Text txt) w =
    if decide (TrimSpace txt = "") then w
    else mkWalk (textBuilder w
                   +:+ (if lastNodeWasText w then " " else "")
                   +:+ TrimSpace txt)
                false true.
Proof.
  intros Hd Hs. unfold Text. rewrite extractText_eq. simpl.
  unfold visitText, trimmedText. simpl. rewrite Hs.
  case_decide; [done|].
  rewrite !not_elem_of_cons in Hd.
  destruct Hd as (Hp & Hli & H1 & H2 & H3 & H4 & H5 & H6 & Ha & _).
  unfold emit. simpl.
  rewrite !decide_False by done.
  assert (Hh : member d headingTagList = false).
  { unfold member, headingTagList. apply bool_decide_eq_false.
    rewrite !not_elem_of_cons. repeat split; try done. apply not_elem_of_nil. }
  rewrite Hh. unfold setFlags, WriteString.
  destruct (lastNodeWasText w); simpl; by rewrite ?sapp_assoc.
Qed.

(* ===================================================================== *)
(** * Further properties of trimming, lines and cells *)
(* ===================================================================== *)

Section TrimFacts.

Implicit Types s t : string.

Lemma dropRunes_stable (width : string -> nat) s :
  forall k, dropRunes width k s = "" \/ width (dropRunes width k s) = 0.
Proof.
  induction s as [|a s IH]; intros k; [by left|].
  simpl. destruct k as [|k]; [|apply IH].
  destruct (width (String a s)) eqn:E; [by right|apply IH].
Qed.

Lemma dropRunes_fixed (width : string -> nat) s :
  s = "" \/ width s = 0 -> dropRunes width 0 s = s.
Proof.
  intros [->|H]; [done|]. destruct s as [|a s]; [done|]. simpl. by rewrite H.
Qed.

Lemma dropRunes_suffix (width : string -> nat) s :
  forall k, exists pre, s = pre +:+ dropRunes width k s.
Proof.
  induction s as [|a s IH]; intros k; [by exists ""|].
  simpl. destruct k as [|k].
  - destruct (width (String a s)); [by exists ""|].
    destruct (IH n) as [pre Hp]. exists (String a pre).
    rewrite sapp_cons. by f_equal.
  - destruct (IH k) as [pre Hp]. exists (String a pre).
    rewrite sapp_cons. by f_equal.
Qed.

Lemma TrimRightSpace_prefix s : exists z, s = TrimRightSpace s +:+ z.
Proof.
  unfold TrimRightSpace.
  destruct (dropRunes_suffix spaceBefore (srev s) 0) as [pre Hp].
  exists (srev pre). rewrite <- srev_app, <- Hp. by rewrite srev_involutive.
Qed.

Lemma TrimRightSpace_idem s : TrimRightSpace (TrimRightSpace s) = TrimRightSpace s.
Proof.
  unfold TrimRightSpace. rewrite srev_involutive.
  by rewrite (dropRunes_fixed _ _ (dropRunes_stable spaceBefore (srev s) 0)).
Qed.

Lemma code_LF : code (ascii_of_N 10) = 10%N.
Proof. reflexivity. Qed.

(** A string that starts with a white-space rune still does when bytes
    are put after it. *)
Lemma spaceAt_app s z : spaceAt s <> 0 -> spaceAt (s +:+ z) = spaceAt s.
Proof.
  destruct s as [|a [|b [|c s]]]; [done| | |].
  - change (String a "" +:+ z) with (String a z).
    cbn [spaceAt]. by destruct (asciiSpace a).
  - change (String a (String b "") +:+ z) with (String a (String b z)).
    cbn [spaceAt]. destruct (asciiSpace a); [done|]. by destruct (space2 a b).
  - done.
Qed.

Lemma spaceAt_prefix s z : spaceAt (s +:+ z) = 0 -> spaceAt s = 0.
Proof.
  intros H. destruct (spaceAt s) eqn:E; [done|].
  rewrite spaceAt_app in H by (by rewrite E). congruence.
Qed.

Lemma TrimLeftSpace_start s : spaceAt (TrimLeftSpace s) = 0.
Proof.
  unfold TrimLeftSpace.
  destruct (dropRunes_stable spaceAt s 0) as [->|H]; done.
Qed.

(** What [TrimSpace] returns starts with no white-space rune. *)
Lemma TrimSpace_start s : spaceAt (TrimSpace s) = 0.
Proof.
  unfold TrimSpace.
  destruct (TrimRightSpace_prefix (TrimLeftSpace s)) as [z Hz].
  apply (spaceAt_prefix _ z). rewrite <- Hz. apply TrimLeftSpace_start.
Qed.

Lemma TrimSpace_idem s : TrimSpace (TrimSpace s) = TrimSpace s.
Proof.
  unfold TrimSpace at 1.
  assert (H : TrimLeftSpace (TrimSpace s) = TrimSpace s).
  { apply dropRunes_fixed. right. apply TrimSpace_start. }
  rewrite H. unfold TrimSpace. apply TrimRightSpace_idem.
Qed.

Lemma space2_LF a : space2 a (ascii_of_N 10) = false.
Proof. unfold space2. rewrite code_LF. simpl. apply andb_false_r. Qed.

Lemma space3_LF_last a b : space3 a b (ascii_of_N 10) = false.
Proof.
  unfold space3. rewrite code_LF. simpl. by rewrite !andb_false_r.
Qed.

Lemma space3_LF_mid a c : space3 a (ascii_of_N 10) c = false.
Proof.
  unfold space3. rewrite code_LF. simpl. by rewrite !andb_false_r.
Qed.

(** Two line feeds put after a non-empty string that starts with no
    white-space rune do not make it start with one. *)
Lemma spaceAt_two_LF s :
  s <> "" -> spaceAt s = 0 -> spaceAt (s +:+ nl +:+ nl) = 0.
Proof.
  intros Hne H. destruct s as [|a [|b [|c s]]]; [done| | |].
  - simpl in *. destruct (asciiSpace a); [done|].
    by rewrite space2_LF, space3_LF_mid.
  - simpl in *. destruct (asciiSpace a); [done|].
    destruct (space2 a b); [done|]. by rewrite space3_LF_last.
  - exact H.
Qed.

End TrimFacts.

(** X6: the text [stripHTMLTags] returns never starts with a white-space
    rune (ASCII or Unicode), whatever the document. *)
Theorem X6_no_leading_space (doc : Node) : spaceAt (stripParsed doc) = 0.
Proof.
  unfold stripParsed. rewrite finish_cases.
  case_decide as Hc; [done|].
  apply spaceAt_two_LF; [done|apply TrimSpace_start].
Qed.

Section LineFacts.

Implicit Types s cur line : string.
Implicit Types ls : list string.

Lemma hasByte_app c s t : hasByte c (s +:+ t) = hasByte c s || hasByte c t.
Proof.
  induction s as [|a s IH]; [done|].
  rewrite sapp_cons. simpl. by rewrite IH, orb_assoc.
Qed.

Lemma splitGo_LF_eq cur a r :
  splitGo nl 0 cur (String a r) =
    if Ascii.eqb a LF then cur :: splitGo nl 0 "" r
    else splitGo nl 0 (cur +:+ String a "") r.
Proof. unfold nl. cbn [splitGo]. by rewrite prefix_byte. Qed.

(** The pieces [Split(s, "\n")] returns hold no line feed. *)
Lemma splitGo_no_LF s :
  forall cur, hasByte LF cur = false ->
  Forall (fun l => hasByte LF l = false) (splitGo nl 0 cur s).
Proof.
  induction s as [|a s IH]; intros cur Hc; [by repeat constructor|].
  rewrite splitGo_LF_eq. destruct (Ascii.eqb a LF) eqn:E.
  - constructor; [done|]. by apply IH.
  - apply IH. rewrite hasByte_app, Hc. simpl. by rewrite E.
Qed.

Lemma Split_no_LF s : Forall (fun l => hasByte LF l = false) (Split s nl).
Proof. by apply splitGo_no_LF. Qed.

Lemma splitGo_line line :
  hasByte LF line = false ->
  forall cur, splitGo nl 0 cur line = [cur +:+ line].
Proof.
  induction line as [|a line IH]; intros H cur.
  - by rewrite sapp_nil_r.
  - simpl in H. apply orb_false_iff in H as [Ha Hl].
    rewrite splitGo_LF_eq, Ha, IH by done.
    by rewrite sapp_assoc.
Qed.

Lemma splitGo_line_LF line rest :
  hasByte LF line = false ->
  forall cur,
    splitGo nl 0 cur (line +:+ nl +:+ rest) = (cur +:+ line) :: splitGo nl 0 "" rest.
Proof.
  induction line as [|a line IH]; intros H cur.
  - change ("" +:+ nl +:+ rest) with (String LF rest).
    rewrite splitGo_LF_eq. unfold LF. rewrite Ascii.eqb_refl.
    by rewrite sapp_nil_r.
  - simpl in H. apply orb_false_iff in H as [Ha Hl].
    rewrite sapp_cons, splitGo_LF_eq, Ha, IH by done.
    by rewrite sapp_assoc.
Qed.

(** Joining lines that hold no line feed and splitting again gives the
    lines back. *)
Lemma Split_Join ls :
  ls <> [] -> Forall (fun l => hasByte LF l = false) ls ->
  Split (Join ls nl) nl = ls.
Proof.
  unfold Split. induction ls as [|l ls IH]; [done|].
  intros _ Hls. apply Forall_cons in Hls as [Hl Hls].
  destruct ls as [|l' ls].
  - simpl. by rewrite splitGo_line.
  - change (Join (l :: l' :: ls) nl) with (l +:+ nl +:+ Join (l' :: ls) nl).
    rewrite splitGo_line_LF by done. by rewrite IH.
Qed.

Lemma cellStep_filter cells line :
  cellStep cells line =
    cells ++ List.filter nonEmpty [TrimSpace line].
Proof.
  unfold cellStep, nonEmpty. cbv zeta. simpl.
  case_decide as H.
  - rewrite H. simpl. by rewrite app_nil_r.
  - by destruct (String.eqb_spec (TrimSpace line) "").
Qed.

Lemma foldl_cellStep ls cells :
  foldl cellStep cells ls = cells ++ List.filter nonEmpty (map TrimSpace ls).
Proof.
  revert cells. induction ls as [|l ls IH]; intros cells; simpl.
  - by rewrite app_nil_r.
  - rewrite IH, cellStep_filter. simpl.
    destruct (nonEmpty (TrimSpace l)); simpl; by rewrite <- ?app_assoc, ?app_nil_r.
Qed.

Lemma keepLine_cases line :
  keepLine line = negb (nonEmpty (TrimSpace line)) || manyWords (TrimSpace line).
Proof.
  unfold keepLine, nonEmpty, manyWords, wordCount.
  destruct (String.eqb_spec (TrimSpace line) "") as [He|Hne].
  - by rewrite bool_decide_eq_true_2.
  - by rewrite bool_decide_eq_false_2.
Qed.

Lemma cells_of_kept ls :
  List.filter nonEmpty (map TrimSpace (List.filter keepLine ls)) =
  List.filter manyWords (List.filter nonEmpty (map TrimSpace ls)).
Proof.
  induction ls as [|l ls IH]; [done|].
  cbn [List.filter map]. rewrite keepLine_cases.
  destruct (nonEmpty (TrimSpace l)) eqn:En;
    destruct (manyWords (TrimSpace l)) eqn:Em;
    cbn [negb orb List.filter map]; rewrite ?En, ?Em; by rewrite IH.
Qed.

Lemma filter_keepLine_idem ls :
  List.filter keepLine (List.filter keepLine ls) = List.filter keepLine ls.
Proof.
  induction ls as [|l ls IH]; [done|].
  simpl. destruct (keepLine l) eqn:E; [|done]. simpl. by rewrite E, IH.
Qed.

Lemma filter_no_LF (f : string -> bool) ls :
  Forall (fun l => hasByte LF l = false) ls ->
  Forall (fun l => hasByte LF l = false) (List.filter f ls).
Proof.
  induction 1 as [|l ls Hl _ IH]; [done|].
  simpl. destruct (f l); [by constructor|done].
Qed.

End LineFacts.

(** X7: the lines [createPDF] hands to [MultiCell] are the lines of the
    content, trimmed, without those that are empty once trimmed, in order;
    every one of them is non-empty and is left unchanged by [TrimSpace]
    (it has no white space at either end). *)
Theorem X7_cells_are_trimmed_lines (content : string) :
  pdfCells content = List.filter nonEmpty (map TrimSpace (Split content nl))
  /\ Forall (fun cell => cell <> "" /\ TrimSpace cell = cell) (pdfCells content).
Proof.
  assert (H : pdfCells content =
              List.filter nonEmpty (map TrimSpace (Split content nl))).
  { unfold pdfCells. by rewrite foldl_cellStep. }
  split; [exact H|]. rewrite H.
  apply Forall_forall. intros cell Hin.
  apply list_elem_of_In, filter_In in Hin as [Hin Hne].
  apply in_map_iff in Hin as (l & <- & _). split.
  - unfold nonEmpty in Hne. by destruct (String.eqb_spec (TrimSpace l) "").
  - apply TrimSpace_idem.
Qed.

(** X8: in clean mode the lines handed to [MultiCell] are exactly the lines
    that would be handed over without it and have three words or more:
    the blank lines the filter keeps never reach the PDF. *)
Theorem X8_clean_cells (content : string) :
  pdfCells (cleanContent content) = List.filter manyWords (pdfCells content).
Proof.
  unfold pdfCells, cleanContent. cbv zeta.
  rewrite foldl_cleanStep, !foldl_cellStep. simpl.
  rewrite <- cells_of_kept.
  destruct (List.filter keepLine (Split content nl)) as [|l ls] eqn:E; [done|].
  rewrite Split_Join; [done|done|].
  rewrite <- E. apply filter_no_LF, Split_no_LF.
Qed.

(** X9: cleaning is idempotent: cleaning cleaned content changes nothing. *)
Theorem X9_clean_idempotent (content : string) :
  cleanContent (cleanContent content) = cleanContent content.
Proof.
  unfold cleanContent. cbv zeta. rewrite !foldl_cleanStep. simpl.
  destruct (List.filter keepLine (Split content nl)) as [|l ls] eqn:E; [done|].
  rewrite Split_Join; [|done|].
  - by rewrite <- E, filter_keepLine_idem.
  - rewrite <- E. apply filter_no_LF, Split_no_LF.
Qed.

(* ===================================================================== *)
(** * Further properties of the scraper *)
(* ===================================================================== *)

Set Warnings "-clear-no-such-hyp".

(** X10: a scraper built by [NewScraper] has clean mode on only together
    with stripping; built without stripping it renders the response body
    as it is, whatever the clean flag asked for. *)
Theorem X10_clean_needs_strip :
  (forall strip cln,
      stripHTML (NewScraper strip cln) = strip /\
      clean (NewScraper strip cln) = strip && cln)
  /\ (forall E cln filename htmlContent t,
        pdfContent E (NewScraper false cln) htmlContent = Some htmlContent /\
        (createPDF E (NewScraper false cln) filename htmlContent t).2
          = t ++ [OutputFileAndClose filename (pdfCells htmlContent)]).
Proof.
  split.
  - by intros [] [].
  - intros E cln filename htmlContent t.
    unfold createPDF, pdfContent, perform. simpl. split; [done|].
    by destruct (succeeds E t _).
Qed.

Section CallbackFacts.

Context (E : Env) (tmpDir : string).

Lemma createPDF_flags s s' filename htmlContent t :
  stripHTML s = stripHTML s' -> clean s = clean s' ->
  createPDF E s filename htmlContent t = createPDF E s' filename htmlContent t.
Proof. intros H1 H2. unfold createPDF, pdfContent. by rewrite H1, H2. Qed.

Lemma onResponse_seen r s t :
  keyOf E r ∈ visited s -> onResponse E tmpDir r (s, t) = (s, t).
Proof. intros H. unfold onResponse. by rewrite decide_True. Qed.

(** The callback on a URL not seen before, by the outcome of [createPDF]. *)
Lemma onResponse_new r s t :
  keyOf E r ∉ visited s ->
  onResponse E tmpDir r (s, t) =
    match createPDF E s (tmpFile E tmpDir r) (Body r) t with
    | (Ok, t1) =>
        (mkScraper ({[keyOf E r]} ∪ visited s)
                   (<[keyOf E r := tmpFile E tmpDir r]> (pdfs s))
                   (stripHTML s) (clean s), t1)
    | (Err _, t1) =>
        (mkScraper ({[keyOf E r]} ∪ visited s) (pdfs s) (stripHTML s) (clean s),
         t1 ++ [Remove (tmpFile E tmpDir r)])
    end.
Proof.
  intros H. unfold onResponse. rewrite decide_False by done.
  rewrite (createPDF_flags _ s) by done.
  by destruct (createPDF E s _ (Body r) t) as [[|e] t1].
Qed.

Lemma onResponse_visited r s t :
  visited (onResponse E tmpDir r (s, t)).1 = {[keyOf E r]} ∪ visited s.
Proof.
  destruct (decide (keyOf E r ∈ visited s)) as [Hin|Hnin].
  - rewrite onResponse_seen by done. simpl. set_solver.
  - rewrite onResponse_new by done.
    by destruct (createPDF E s _ (Body r) t) as [[|e] t1].
Qed.

Lemma onResponse_flags r s t :
  stripHTML (onResponse E tmpDir r (s, t)).1 = stripHTML s /\
  clean (onResponse E tmpDir r (s, t)).1 = clean s.
Proof.
  destruct (decide (keyOf E r ∈ visited s)) as [Hin|Hnin].
  - by rewrite onResponse_seen.
  - rewrite onResponse_new by done.
    by destruct (createPDF E s _ (Body r) t) as [[|e] t1].
Qed.

Lemma onResponse_pdfs r s t k f :
  pdfs (onResponse E tmpDir r (s, t)).1 !! k = Some f ->
  pdfs s !! k = Some f \/ (k = keyOf E r /\ f = tmpFile E tmpDir r).
Proof.
  destruct (decide (keyOf E r ∈ visited s)) as [Hin|Hnin].
  - rewrite onResponse_seen by done. by left.
  - rewrite onResponse_new by done.
    destruct (createPDF E s _ (Body r) t) as [[|e] t1]; simpl; [|by left].
    rewrite lookup_insert. case_decide; [intros [= <-]; by right|by left].
Qed.

Lemma onResponse_dom r s t :
  dom (pdfs s) ⊆ visited s ->
  dom (pdfs (onResponse E tmpDir r (s, t)).1) ⊆ visited (onResponse E tmpDir r (s, t)).1.
Proof.
  intros Hd. destruct (decide (keyOf E r ∈ visited s)) as [Hin|Hnin].
  - by rewrite onResponse_seen.
  - rewrite onResponse_new by done.
    destruct (createPDF E s _ (Body r) t) as [[|e] t1]; simpl.
    + rewrite dom_insert_L. set_solver.
    + set_solver.
Qed.

Lemma createPDF_ops s filename htmlContent t :
  exists ops,
    (createPDF E s filename htmlContent t).2 = t ++ ops /\
    Forall (fun op => isCallbackOp op = true) ops /\
    length (List.filter isOutput ops) <= 1.
Proof.
  unfold createPDF, perform.
  destruct (pdfContent E s htmlContent) as [content|].
  - eexists [_]. split; [by destruct (succeeds E t _)|].
    split; [by repeat constructor|done].
  - exists []. rewrite app_nil_r. split; [done|]. split; [done|simpl; lia].
Qed.

Lemma onResponse_ops r s t :
  exists ops,
    (onResponse E tmpDir r (s, t)).2 = t ++ ops /\
    Forall (fun op => isCallbackOp op = true) ops /\
    length (List.filter isOutput ops) + size (visited s)
      <= size (visited (onResponse E tmpDir r (s, t)).1).
Proof.
  destruct (decide (keyOf E r ∈ visited s)) as [Hin|Hnin].
  - rewrite onResponse_seen by done. exists []. rewrite app_nil_r.
    split; [done|]. split; [done|simpl; lia].
  - assert (Hsz : size ({[keyOf E r]} ∪ visited s) = S (size (visited s))).
    { rewrite size_union by set_solver. by rewrite size_singleton. }
    rewrite onResponse_new by done.
    destruct (createPDF_ops s (tmpFile E tmpDir r) (Body r) t)
      as (ops & Ht & Hk & Hn).
    destruct (createPDF E s _ (Body r) t) as [[|e] t1]; simpl in *; subst t1.
    + exists ops. split; [done|]. split; [done|]. rewrite Hsz. lia.
    + exists (ops ++ [Remove (tmpFile E tmpDir r)]).
      rewrite app_assoc. split; [done|]. split.
      * apply Forall_app. split; [done|]. by repeat constructor.
      * rewrite List.filter_app, length_app. simpl. rewrite Hsz. lia.
Qed.

Lemma crawl_cons r rs st :
  crawl E tmpDir (r :: rs) st = crawl E tmpDir rs (onResponse E tmpDir r st).
Proof. done. Qed.

End CallbackFacts.

(** X11: the callback handles a URL once: after it has run for a response,
    running it for any response with the same URL string changes neither
    the scraper nor the trace of calls. *)
Theorem X11_second_delivery_ignored (E : Env) (tmpDir : string)
    (r r' : Response) (st : Scraper * Trace) :
  keyOf E r' = keyOf E r ->
  onResponse E tmpDir r' (onResponse E tmpDir r st) = onResponse E tmpDir r st.
Proof.
  intros Hk. destruct st as [s t].
  pose proof (onResponse_visited E tmpDir r s t) as Hv.
  destruct (onResponse E tmpDir r (s, t)) as [s1 t1]. simpl in Hv.
  apply onResponse_seen. rewrite Hk, Hv. set_solver.
Qed.

(** X12: when [createPDF] fails for a URL not seen before, the callback
    tries to remove the file, records no artifact, and still leaves the URL
    marked as visited, so a later response for it is ignored and the page
    is not retried. *)
Theorem X12_failed_page_not_retried (E : Env) (tmpDir : string) (r : Response)
    (s : Scraper) (t : Trace) (e : Error) :
  keyOf E r ∉ visited s ->
  (createPDF E s (tmpFile E tmpDir r) (Body r) t).1 = Err e ->
  (onResponse E tmpDir r (s, t)).2
    = (createPDF E s (tmpFile E tmpDir r) (Body r) t).2 ++ [Remove (tmpFile E tmpDir r)]
  /\ pdfs (onResponse E tmpDir r (s, t)).1 = pdfs s
  /\ keyOf E r ∈ visited (onResponse E tmpDir r (s, t)).1
  /\ (forall r', keyOf E r' = keyOf E r ->
        onResponse E tmpDir r' (onResponse E tmpDir r (s, t))
        = onResponse E tmpDir r (s, t)).
Proof.
  intros Hnew Hfail.
  assert (Hlater : forall r', keyOf E r' = keyOf E r ->
            onResponse E tmpDir r' (onResponse E tmpDir r (s, t))
            = onResponse E tmpDir r (s, t)).
  { intros r' Hk.
    pose proof (onResponse_visited E tmpDir r s t) as Hv.
    destruct (onResponse E tmpDir r (s, t)) as [s1 t1]. simpl in Hv.
    apply onResponse_seen. rewrite Hk, Hv. set_solver. }
  revert Hlater. rewrite (onResponse_new E tmpDir r s t Hnew).
  destruct (createPDF E s _ (Body r) t) as [[|e'] t1]; [done|].
  intros Hlater. simpl. repeat split; [set_solver|exact Hlater].
Qed.

(** X13: a synchronous crawl adds to [visited] exactly the URL strings of
    the responses it hands over, keeps the two mode flags, keeps every key
    of [pdfs] among the visited URLs, and records under a URL only the
    temporary file named after a response with that URL. *)
Theorem X13_crawl_state (E : Env) (tmpDir : string) (rs : list Response)
    (s : Scraper) (t : Trace) :
  visited (crawl E tmpDir rs (s, t)).1 = list_to_set (keyOf E <$> rs) ∪ visited s
  /\ stripHTML (crawl E tmpDir rs (s, t)).1 = stripHTML s
  /\ clean (crawl E tmpDir rs (s, t)).1 = clean s
  /\ (dom (pdfs s) ⊆ visited s ->
      dom (pdfs (crawl E tmpDir rs (s, t)).1) ⊆ visited (crawl E tmpDir rs (s, t)).1)
  /\ (forall k f,
        pdfs (crawl E tmpDir rs (s, t)).1 !! k = Some f ->
        pdfs s !! k = Some f \/
        exists r, r ∈ rs /\ k = keyOf E r /\ f = tmpFile E tmpDir r).
Proof.
  revert s t. induction rs as [|r rs IH]; intros s t.
  - simpl. repeat split; [set_solver|done|by left].
  - rewrite crawl_cons.
    pose proof (onResponse_visited E tmpDir r s t) as Hv.
    pose proof (onResponse_flags E tmpDir r s t) as [Hf1 Hf2].
    pose proof (onResponse_dom E tmpDir r s t) as Hd.
    pose proof (onResponse_pdfs E tmpDir r s t) as Hp.
    destruct (onResponse E tmpDir r (s, t)) as [s1 t1]. simpl in *.
    destruct (IH s1 t1) as (IHv & IHf1 & IHf2 & IHd & IHp).
    repeat split.
    + rewrite IHv, Hv. set_solver.
    + congruence.
    + congruence.
    + intros Hdom. by apply IHd, Hd.
    + intros k f Hk. destruct (IHp k f Hk) as [Hold|(r' & Hin & -> & ->)].
      * destruct (Hp k f Hold) as [?|[-> ->]]; [by left|].
        right. exists r. split; [apply list_elem_of_here|done].
      * right. exists r'. split; [by apply list_elem_of_further|done].
Qed.

Lemma crawl_callback_ops (E : Env) (tmpDir : string) (rs : list Response)
    (s : Scraper) (t : Trace) :
  exists ops,
    (crawl E tmpDir rs (s, t)).2 = t ++ ops /\
    Forall (fun op => isCallbackOp op = true) ops.
Proof.
  revert s t. induction rs as [|r rs IH]; intros s t.
  - exists []. rewrite app_nil_r. by simpl.
  - rewrite crawl_cons.
    destruct (onResponse_ops E tmpDir r s t) as (ops1 & H1 & Hk1 & _).
    destruct (onResponse E tmpDir r (s, t)) as [s1 t1]. simpl in *. subst t1.
    destruct (IH s1 (t ++ ops1)) as (ops2 & H2 & Hk2).
    exists (ops1 ++ ops2). rewrite H2, app_assoc. split; [done|].
    by apply Forall_app.
Qed.

(** X14: in a synchronous crawl the callback makes no call but
    [OutputFileAndClose] and [os.Remove], and writes at most one PDF for
    each URL string it had not seen before. *)
Theorem X14_one_pdf_per_new_url (E : Env) (tmpDir : string) (rs : list Response)
    (s : Scraper) (t : Trace) :
  exists ops,
    (crawl E tmpDir rs (s, t)).2 = t ++ ops /\
    Forall (fun op => isCallbackOp op = true) ops /\
    length (List.filter isOutput ops) + size (visited s)
      <= size (visited (crawl E tmpDir rs (s, t)).1).
Proof.
  revert s t. induction rs as [|r rs IH]; intros s t.
  - exists []. rewrite app_nil_r. simpl. split; [done|]. split; [done|lia].
  - rewrite crawl_cons.
    destruct (onResponse_ops E tmpDir r s t) as (ops1 & H1 & Hk1 & Hn1).
    destruct (onResponse E tmpDir r (s, t)) as [s1 t1]. simpl in *. subst t1.
    destruct (IH s1 (t ++ ops1)) as (ops2 & H2 & Hk2 & Hn2).
    exists (ops1 ++ ops2). rewrite H2, app_assoc. split; [done|]. split.
    + by apply Forall_app.
    + rewrite List.filter_app, length_app. lia.
Qed.

Section ZipFacts.

Context (E : Env).

Lemma zipLoop_cons k f rest archive t :
  zipLoop E ((k, f) :: rest) archive t =
    match url_Parse E k with
    | None => (Err (ErrZipParseURL k), archive, t)
    | Some u =>
        if negb (succeeds E t (Open f)) then (Err ErrZipOpen, archive, t ++ [Open f])
        else if negb (succeeds E (t ++ [Open f]) (ZipCreate (pdfName u)))
        then (Err ErrZipEntry, archive, (t ++ [Open f]) ++ [ZipCreate (pdfName u)])
        else if negb (succeeds E ((t ++ [Open f]) ++ [ZipCreate (pdfName u)])
                               (Copy (pdfName u) f))
        then (Err ErrZipWrite, archive ++ [(pdfName u, f)],
              ((t ++ [Open f]) ++ [ZipCreate (pdfName u)]) ++ [Copy (pdfName u) f])
        else zipLoop E rest (archive ++ [(pdfName u, f)])
               (((t ++ [Open f]) ++ [ZipCreate (pdfName u)]) ++ [Copy (pdfName u) f])
    end.
Proof. reflexivity. Qed.

(** Whatever the outcome, the entries written so far belong, in order, to
    the first keys the loop was given. *)
Lemma zipLoop_prefix kvs :
  forall archive t r a t',
    zipLoop E kvs archive t = (r, a, t') ->
    exists es ops n,
      a = archive ++ es /\
      Forall2 (fun kv e => exists u, url_Parse E kv.1 = Some u /\ e = (pdfName u, kv.2))
              (take n kvs) es /\
      t' = t ++ ops /\ Forall (fun op => isZipOp op = true) ops /\
      (r = Ok -> n = length kvs /\ ops = flat_map entryOps es).
Proof.
  induction kvs as [|[k f] kvs IH]; intros archive t r a t' H.
  - injection H as <- <- <-. exists [], [], 0. rewrite !app_nil_r.
    repeat split; constructor.
  - rewrite zipLoop_cons in H.
    destruct (url_Parse E k) as [u|] eqn:Hu.
    2:{ injection H as <- <- <-. exists [], [], 0. rewrite !app_nil_r.
        repeat split; try constructor; done. }
    destruct (succeeds E t (Open f)); simpl in H.
    2:{ injection H as <- <- <-. exists [], [Open f], 0. rewrite app_nil_r.
        repeat split; try (by repeat constructor); done. }
    destruct (succeeds E (t ++ [Open f]) _); simpl in H.
    2:{ injection H as <- <- <-. exists [], [Open f; ZipCreate (pdfName u)], 0.
        rewrite app_nil_r, <- app_assoc.
        repeat split; try (by repeat constructor); done. }
    destruct (succeeds E ((t ++ [Open f]) ++ _) _); simpl in H.
    2:{ injection H as <- <- <-.
        exists [(pdfName u, f)], (entryOps (pdfName u, f)), 1.
        rewrite <- !app_assoc.
        repeat split; try (by repeat constructor); try done.
        simpl. rewrite take_0. constructor; [by exists u|constructor]. }
    destruct (IH _ _ _ _ _ H) as (es & ops & n & -> & HF & -> & Hops & HOk).
    exists ((pdfName u, f) :: es), (entryOps (pdfName u, f) ++ ops), (S n).
    rewrite <- !app_assoc.
    split; [done|]. split; [simpl; constructor; [by exists u|done]|].
    split; [done|]. split; [apply Forall_app; split; [by repeat constructor|done]|].
    intros Hr. by destruct (HOk Hr) as [-> ->].
Qed.

End ZipFacts.

(** X15: when [createZip] returns without error, the archive holds one
    entry for every key [range] yielded, in that order, each named after
    the parsed URL and copied from the recorded file, and the calls made
    are [os.Create] on the archive path followed, entry by entry, by
    [os.Open], [archive.Create] and [io.Copy]. *)
Theorem X15_zip_complete_on_success (E : Env) (s : Scraper) (zipname : string)
    (t t' : Trace) (archive : list ZipEntry) :
  createZip E s zipname t = (Ok, archive, t') ->
  Forall2 (fun kv e => exists u, url_Parse E kv.1 = Some u /\ e = (pdfName u, kv.2))
          (rangeOrder E (pdfs s)) archive
  /\ t' = t ++ Create zipname :: flat_map entryOps archive.
Proof.
  unfold createZip, perform.
  destruct (succeeds E t (Create zipname)); simpl; [|done].
  intros H.
  destruct (zipLoop_prefix E _ _ _ _ _ _ H) as (es & ops & n & -> & HF & -> & _ & HOk).
  destruct (HOk eq_refl) as [-> ->]. rewrite firstn_all in HF.
  split; [exact HF|]. by rewrite <- app_assoc.
Qed.





(** A failing [io.Copy] on the only artifact: the archive holds as many
    entries as there are artifacts, and the call returns an error. *)
Example zip_copy_fails_on_last :
  (createZip
     (mkEnv Sample.parse Sample.render (fun _ => Some Sample.doc)
            (fun _ => "out") (fun d f => d +:+ "/" +:+ f)
            (fun _ op => match op with Copy _ _ => false | _ => true end)
            (fun _ => "/tmp/webscraper1") (fun _ _ => ([], true)) map_to_list)
     (mkScraper ∅ (<["http://example.com/a" := "/tmp/webscraper1/example.com_a.pdf"]> ∅)
                true false)
     "out/example.com.zip" []).1
  = (Err ErrZipWrite, [("example.com_a.pdf", "/tmp/webscraper1/example.com_a.pdf")]).
Proof. vm_compute. reflexivity. Qed.

Section RunFacts.

Context (E : Env).

(** The ways [ScrapeAndSave] can go, with what each returns. *)
Lemma ScrapeAndSave_shape s startURL outputPath t :
  (url_Parse E startURL = None /\
   ScrapeAndSave E s startURL outputPath t = (Err ErrInvalidURL, s, t))
  \/ (succeeds E t (MkdirAll (filepath_Dir E outputPath)) = false /\
      ScrapeAndSave E s startURL outputPath t =
        (Err ErrOutputDir, s, t ++ [MkdirAll (filepath_Dir E outputPath)]))
  \/ (succeeds E (t ++ [MkdirAll (filepath_Dir E outputPath)]) MkdirTemp = false /\
      ScrapeAndSave E s startURL outputPath t =
        (Err ErrTempDir, s, t ++ [MkdirAll (filepath_Dir E outputPath); MkdirTemp]))
  \/ (exists u s1 cops r zops,
        url_Parse E startURL = Some u /\
        crawl E (tempDir E (t ++ [MkdirAll (filepath_Dir E outputPath)]))
              (colly_Visit E startURL (Host u)).1
              (s, t ++ [MkdirAll (filepath_Dir E outputPath); MkdirTemp])
          = (s1, (t ++ [MkdirAll (filepath_Dir E outputPath); MkdirTemp]) ++ cops) /\
        Forall (fun op => isCallbackOp op = true) cops /\
        ScrapeAndSave E s startURL outputPath t =
          (r, s1,
           t ++ MkdirAll (filepath_Dir E outputPath) :: MkdirTemp :: cops ++ zops ++
             [RemoveAll (tempDir E (t ++ [MkdirAll (filepath_Dir E outputPath)]))]) /\
        (((colly_Visit E startURL (Host u)).2 = false /\
          r = Err ErrStartScraping /\ zops = [])
         \/ ((colly_Visit E startURL (Host u)).2 = true /\ size (pdfs s1) = 0 /\
             r = Err ErrNoPages /\ zops = [])
         \/ ((colly_Visit E startURL (Host u)).2 = true /\ 0 < size (pdfs s1) /\
             exists rz archive,
               createZip E s1 outputPath
                 ((t ++ [MkdirAll (filepath_Dir E outputPath); MkdirTemp]) ++ cops)
               = (rz, archive,
                  ((t ++ [MkdirAll (filepath_Dir E outputPath); MkdirTemp]) ++ cops)
                    ++ zops) /\
               r = match rz with Ok => Ok | Err e => Err (ErrCreateZip e) end))).
Proof.
  unfold ScrapeAndSave, perform.
  destruct (url_Parse E startURL) as [u|]; [|by left].
  right. simpl.
  destruct (succeeds E t (MkdirAll _)); simpl; [|by left].
  right.
  destruct (succeeds E (t ++ [MkdirAll _]) MkdirTemp); simpl;
    [|left; by rewrite <- app_assoc].
  right.
  destruct (colly_Visit E startURL (Host u)) as [responses started] eqn:Hv.
  set (dir := filepath_Dir E outputPath).
  set (tmpDir := tempDir E (t ++ [MkdirAll dir])).
  replace ((t ++ [MkdirAll dir]) ++ [MkdirTemp])
    with (t ++ [MkdirAll dir; MkdirTemp]) by (by rewrite <- app_assoc).
  set (t0 := t ++ [MkdirAll dir; MkdirTemp]).
  destruct (crawl_callback_ops E tmpDir responses s t0) as (cops & Hc & Hk).
  change (foldl (fun st r => onResponse E tmpDir r st) (s, t0) responses)
    with (crawl E tmpDir responses (s, t0)).
  destruct (crawl E tmpDir responses (s, t0)) as [s1 t1] eqn:Hcrawl.
  assert (t1 = t0 ++ cops) as ->
    by (rewrite <- Hc; exact (eq_sym (f_equal snd Hcrawl))).
  assert (Hshift : forall zs,
            (t0 ++ cops ++ zs) ++ [RemoveAll tmpDir] =
            t ++ MkdirAll dir :: MkdirTemp :: cops ++ zs ++ [RemoveAll tmpDir]).
  { intros zs. unfold t0. rewrite <- !app_assoc. done. }
  destruct started; simpl.
  - destruct (0 <? size (pdfs s1)) eqn:Hsz.
    + apply Nat.ltb_lt in Hsz.
      destruct (createZip_trace E s1 outputPath (t0 ++ cops)) as (zops & Hz).
      destruct (createZip E s1 outputPath (t0 ++ cops)) as [[rz archive] t2] eqn:Hzip.
      simpl in Hz. subst t2.
      exists u, s1, cops,
        (match rz with Ok => Ok | Err e => Err (ErrCreateZip e) end),
        (Create outputPath :: zops).
      rewrite Hv. simpl.
      split; [done|]. split; [done|]. split; [done|]. split.
      * pose proof (Hshift (Create outputPath :: zops)) as Hs. simpl in Hs.
        rewrite <- Hs. destruct rz; by rewrite <- !app_assoc.
      * right. right. split; [done|]. split; [done|]. by exists rz, archive.
    + apply Nat.ltb_ge in Hsz.
      exists u, s1, cops, (Err ErrNoPages), [].
      rewrite Hv. simpl.
      split; [done|]. split; [done|]. split; [done|]. split.
      * pose proof (Hshift []) as Hs. simpl in Hs.
        rewrite <- Hs. by rewrite app_nil_r.
      * right. left. split; [done|]. split; [lia|done].
  - exists u, s1, cops, (Err ErrStartScraping), [].
    rewrite Hv. simpl.
    split; [done|]. split; [done|]. split; [done|]. split.
    + pose proof (Hshift []) as Hs. simpl in Hs.
      rewrite <- Hs. by rewrite app_nil_r.
    + left. done.
Qed.

End RunFacts.

Lemma createZip_outcome (E : Env) (s : Scraper) (zipname : string) (t : Trace)
    (r : result) (archive : list ZipEntry) (t' : Trace) :
  createZip E s zipname t = (r, archive, t') ->
  exists n ops,
    Forall2 (fun kv e => exists u, url_Parse E kv.1 = Some u /\ e = (pdfName u, kv.2))
            (take n (rangeOrder E (pdfs s))) archive
    /\ t' = t ++ Create zipname :: ops
    /\ Forall (fun op => isZipOp op = true) ops
    /\ (r = Ok -> n = length (rangeOrder E (pdfs s)) /\ ops = flat_map entryOps archive).
Proof.
  unfold createZip, perform.
  destruct (succeeds E t (Create zipname)); simpl.
  - intros H.
    destruct (zipLoop_prefix E _ _ _ _ _ _ H) as (es & ops & n & -> & HF & -> & Hops & HOk).
    exists n, ops. rewrite <- app_assoc. done.
  - intros [= <- <- <-]. exists 0, []. rewrite take_0.
    split; [constructor|]. split; [done|]. split; [constructor|done].
Qed.





(** The two runs of the counterexample: the first archives the start page
    and removes its temporary directory; the second skips the page at the
    guard, creates the archive file again, cannot open the file of the
    first run and returns an error, leaving an archive without entries. *)
Example reused_scraper_runs :
  Cases.firstRun.1.1 = Ok
  /\ Cases.secondRun.1.1 = Err (ErrCreateZip ErrZipOpen)
  /\ Cases.secondRun.2 =
       Cases.firstRun.2 ++
       [MkdirAll "out"; MkdirTemp; Create "out/example.com.zip";
        Open "/tmp/webscraper1/example.com_index.pdf";
        RemoveAll "/tmp/webscraper2"]
  /\ (createZip Cases.disk Cases.firstRun.1.2 "out/example.com.zip"
                (Cases.firstRun.2 ++ [MkdirAll "out"; MkdirTemp])).1
     = (Err ErrZipOpen, []).
Proof. vm_compute. repeat split; reflexivity. Qed.



Example unwritable_run :
  ScrapeAndSave Cases.unwritable (NewScraper true false)
                "http://example.com/" "out/example.com.zip" []
  = (Err ErrNoPages,
     mkScraper ({["http://example.com/a"]} ∪ ({["http://example.com/"]} ∪ ∅)) ∅
               true false,
     [MkdirAll "out"; MkdirTemp;
      OutputFileAndClose "/tmp/webscraper1/example.com_index.pdf" ["T"; "C"];
      Remove "/tmp/webscraper1/example.com_index.pdf";
      OutputFileAndClose "/tmp/webscraper1/example.com_a.pdf" ["T"; "C"];
      Remove "/tmp/webscraper1/example.com_a.pdf";
      RemoveAll "/tmp/webscraper1"]).
Proof. vm_compute. reflexivity. Qed.

(** X17: [ScrapeAndSave] removes the temporary directory as its last call
    whenever it has created it, and only then: after an invalid start URL
    it has called nothing, after a failed [MkdirAll] or [MkdirTemp]
    nothing beyond that call, and on every other way out, with or without
    error, the trace ends with [os.RemoveAll] on the temporary directory,
    which no earlier call removed. *)
Theorem X17_temp_dir_removed_last (E : Env) (s : Scraper)
    (startURL outputPath : string) (t : Trace) :
  exists ops,
    (ScrapeAndSave E s startURL outputPath t).2 = t ++ ops /\
    match (ScrapeAndSave E s startURL outputPath t).1.1 with
    | Err ErrInvalidURL => ops = []
    | Err ErrOutputDir => ops = [MkdirAll (filepath_Dir E outputPath)]
    | Err ErrTempDir => ops = [MkdirAll (filepath_Dir E outputPath); MkdirTemp]
    | _ =>
        exists mid,
          ops = MkdirAll (filepath_Dir E outputPath) :: MkdirTemp :: mid ++
                [RemoveAll (tempDir E (t ++ [MkdirAll (filepath_Dir E outputPath)]))]
          /\ Forall (fun op => forall x, op <> RemoveAll x) mid
    end.
Proof.
  destruct (ScrapeAndSave_shape E s startURL outputPath t)
    as [[_ ->]|[[_ ->]|[[_ ->]|H]]].
  - exists []. by rewrite app_nil_r.
  - by eexists.
  - by eexists.
  - destruct H as (u & s1 & cops & r & zops & _ & _ & Hk & -> & Hcase).
    eexists. split; [done|]. simpl.
    assert (Hmid : Forall (fun op => forall x, op <> RemoveAll x) (cops ++ zops)).
    { apply Forall_app. split.
      - eapply Forall_impl; [exact Hk|]. intros op Hop x ->. done.
      - destruct Hcase as [(_ & _ & ->)|[(_ & _ & _ & ->)|(_ & _ & rz & a & Hz & _)]];
          [done|done|].
        destruct (createZip_outcome E _ _ _ _ _ _ Hz) as (n & ops & _ & Ht & Hops & _).
        apply app_inv_head in Ht as ->.
        constructor; [done|].
        eapply Forall_impl; [exact Hops|]. intros op Hop x ->. done. }
    assert (Hgoal : exists mid,
              MkdirAll (filepath_Dir E outputPath) :: MkdirTemp :: cops ++ zops ++
                [RemoveAll (tempDir E (t ++ [MkdirAll (filepath_Dir E outputPath)]))]
              = MkdirAll (filepath_Dir E outputPath) :: MkdirTemp :: mid ++
                [RemoveAll (tempDir E (t ++ [MkdirAll (filepath_Dir E outputPath)]))]
              /\ Forall (fun op => forall x, op <> RemoveAll x) mid).
    { exists (cops ++ zops). by rewrite <- app_assoc. }
    destruct Hcase as [(_ & -> & _)|[(_ & _ & -> & _)|(_ & _ & rz & a & _ & ->)]];
      [done|done|by destruct rz].
Qed.

(** X18: when [ScrapeAndSave] returns without error, the crawl has recorded
    at least one artifact, the archive was created at the output path, and
    every recorded artifact [range] yielded was written into it as an entry
    named after its URL, before the temporary directory was removed. *)
Theorem X18_success_means_full_archive (E : Env) (s : Scraper)
    (startURL outputPath : string) (t : Trace) :
  (ScrapeAndSave E s startURL outputPath t).1.1 = Ok ->
  0 < size (pdfs (ScrapeAndSave E s startURL outputPath t).1.2)
  /\ exists cops archive,
       Forall (fun op => isCallbackOp op = true) cops /\
       Forall2 (fun kv e => exists u, url_Parse E kv.1 = Some u /\ e = (pdfName u, kv.2))
               (rangeOrder E (pdfs (ScrapeAndSave E s startURL outputPath t).1.2))
               archive /\
       (ScrapeAndSave E s startURL outputPath t).2 =
         t ++ MkdirAll (filepath_Dir E outputPath) :: MkdirTemp :: cops ++
           Create outputPath :: flat_map entryOps archive ++
           [RemoveAll (tempDir E (t ++ [MkdirAll (filepath_Dir E outputPath)]))].
Proof.
  destruct (ScrapeAndSave_shape E s startURL outputPath t)
    as [[_ ->]|[[_ ->]|[[_ ->]|H]]]; [done|done|done|].
  destruct H as (u & s1 & cops & r & zops & _ & _ & Hk & -> & Hcase).
  simpl. intros ->.
  destruct Hcase as [(_ & ? & _)|[(_ & _ & ? & _)|(_ & Hsz & rz & a & Hz & Hr)]];
    [done|done|].
  destruct rz as [|e]; [|done].
  destruct (createZip_outcome E _ _ _ _ _ _ Hz) as (n & ops & HF & Ht & _ & HOk).
  destruct (HOk eq_refl) as [-> ->]. rewrite firstn_all in HF.
  apply app_inv_head in Ht as ->.
  split; [done|]. exists cops, a. split; [done|]. split; [done|]. done.
Qed.

Section PathFacts.

Lemma repeatByte_app c i j :
  repeatByte c i +:+ repeatByte c j = repeatByte c (i + j).
Proof.
  induction i as [|i IH]; [done|]. simpl. rewrite sapp_cons. by f_equal.
Qed.

Lemma trimLeftByte_repeat c n : trimLeftByte c (repeatByte c n) = "".
Proof.
  induction n as [|n IH]; [done|]. simpl. by rewrite Ascii.eqb_refl.
Qed.

Lemma Trim_repeat c n : Trim (repeatByte c n) c = "".
Proof.
  unfold Trim, trimRightByte. by rewrite srev_repeatByte, trimLeftByte_repeat.
Qed.

Lemma mapBytes_empty f s : mapBytes f s = "" -> s = "".
Proof. by destruct s. Qed.

End PathFacts.

(** X19: the path part of a file or entry name is empty exactly for a path
    of two slashes or more: only the empty path and "/" become "index", and
    a URL whose path is "//" gets the name host, underscore, ".pdf". *)
Theorem X19_empty_path_part (p : string) :
  sanitizePath p = "" <-> exists n, 2 <= n /\ p = repeatByte slash n.
Proof.
  split.
  - intros H.
    assert (H1 : p <> "") by (by intros ->).
    assert (H2 : p <> "/") by (by intros ->).
    rewrite sanitizePath_other in H by done.
    apply mapBytes_empty in H.
    destruct (Trim_spec p slash) as ((i & j & Hp) & _ & _).
    change (Trim p slash) with (Trim p "/") in Hp. rewrite H in Hp.
    change ("" +:+ repeatByte slash j) with (repeatByte slash j) in Hp.
    rewrite repeatByte_app in Hp.
    exists (i + j). split; [|done].
    destruct (i + j) as [|[|k]]; [done|done|lia].
  - intros (n & Hn & ->).
    destruct n as [|[|n]]; [lia|lia|].
    rewrite sanitizePath_other by done.
    pose proof (Trim_repeat slash (S (S n))) as Ht.
    change (Trim (repeatByte slash (S (S n))) "/" = "") in Ht. by rewrite Ht.
Qed.

(** X20: with stripping on, a body the HTML parser rejects makes
    [createPDF] fail before it writes anything; the callback, for a URL not
    seen before, then only calls [os.Remove] on the file that was never
    written, records nothing and marks the URL visited. *)
Theorem X20_parse_failure (E : Env) (tmpDir : string) (r : Response)
    (s : Scraper) (t : Trace) :
  stripHTML s = true ->
  html_Parse E (Body r) = None ->
  keyOf E r ∉ visited s ->
  createPDF E s (tmpFile E tmpDir r) (Body r) t = (Err ErrStripHTML, t)
  /\ onResponse E tmpDir r (s, t) =
       (mkScraper ({[keyOf E r]} ∪ visited s) (pdfs s) (stripHTML s) (clean s),
        t ++ [Remove (tmpFile E tmpDir r)]).
Proof.
  intros Hs Hp Hnew.
  assert (Hc : createPDF E s (tmpFile E tmpDir r) (Body r) t = (Err ErrStripHTML, t)).
  { unfold createPDF, pdfContent, stripHTMLTags. by rewrite Hs, Hp. }
  split; [exact Hc|].
  by rewrite onResponse_new, Hc.
Qed.

(** X21: artifacts a scraper already holds are archived again: when
    [ScrapeAndSave] runs on a scraper whose [pdfs] is not empty and the
    crawl starts but hands over no response, it still creates the archive
    at the output path. *)
Theorem X21_held_artifacts_are_archived (E : Env) (s : Scraper)
    (startURL outputPath : string) (t : Trace) (u : URL) :
  url_Parse E startURL = Some u ->
  succeeds E t (MkdirAll (filepath_Dir E outputPath)) = true ->
  succeeds E (t ++ [MkdirAll (filepath_Dir E outputPath)]) MkdirTemp = true ->
  colly_Visit E startURL (Host u) = ([], true) ->
  0 < size (pdfs s) ->
  (ScrapeAndSave E s startURL outputPath t).1.2 = s
  /\ exists zops,
       (ScrapeAndSave E s startURL outputPath t).2 =
         t ++ MkdirAll (filepath_Dir E outputPath) :: MkdirTemp ::
           Create outputPath :: zops ++
           [RemoveAll (tempDir E (t ++ [MkdirAll (filepath_Dir E outputPath)]))].
Proof.
  intros Hu Hm Ht Hv Hsz.
  destruct (ScrapeAndSave_shape E s startURL outputPath t)
    as [[Hn _]|[[Hn _]|[[Hn _]|H]]]; [congruence|congruence|congruence|].
  destruct H as (u' & s1 & cops & r & zops & Hu' & Hc & _ & -> & Hcase).
  assert (u' = u) as -> by congruence.
  rewrite Hv in Hc, Hcase. simpl in Hc, Hcase.
  injection Hc as <- Hcops.
  assert (cops = []) as ->.
  { apply (app_inv_head (t ++ [MkdirAll (filepath_Dir E outputPath); MkdirTemp])).
    by rewrite app_nil_r. }
  simpl. split; [done|].
  destruct Hcase as [(? & _)|[(_ & ? & _)|(_ & _ & rz & a & Hz & _)]]; [done|lia|].
  destruct (createZip_outcome E _ _ _ _ _ _ Hz) as (n & ops & _ & Ht' & _).
  apply app_inv_head in Ht' as ->. by exists ops.
Qed.

Lemma hasByte_mapBytes_slash s : hasByte slash (mapBytes slashToUnderscore s) = false.
Proof.
  induction s as [|a s IH]; [done|]. simpl. rewrite IH.
  unfold slashToUnderscore. by destruct (Ascii.eqb_spec a slash) as [->|Hne];
    [|apply orb_false_iff; split; [by apply Ascii.eqb_neq|]].
Qed.

(** X22: the name derived from a URL holds no slash when the host holds
    none, whatever the path: it is a single path component, so the file
    the callback writes lies directly in the temporary directory and the
    archive entry is a top-level entry. *)
Theorem X22_name_is_one_component (u : URL) :
  hasByte slash (Host u) = false -> hasByte slash (pdfName u) = false.
Proof.
  intros Hh. unfold pdfName, sanitizePath. cbv zeta.
  rewrite ReplaceAll_slash, !hasByte_app, Hh, hasByte_mapBytes_slash. done.
Qed.

(** ** Instances of the further properties *)

Lemma X3_paragraph_text_witness :
  extractText (Some (mkParent "p" (Some "body") false)) false
              (Text "  Padded   text  ") initWalk
  = mkWalk ("Padded   text" +:+ nl +:+ nl) true false.
Proof.
  apply (X3_paragraph_text (Some "body") false false "  Padded   text  " initWalk).
  vm_compute. discriminate.
Defined.

Lemma X4_list_item_text_witness :
  extractText (Some (mkParent "li" (Some "ul") true)) false (Text "First item")
              initWalk
  = mkWalk ("• First item" +:+ nl) false false.
Proof.
  apply (X4_list_item_text (Some "ul") true false "First item" initWalk).
  vm_compute. discriminate.
Defined.

Lemma X5_other_parent_text_witness :
  extractText (Some (mkParent "div" (Some "body") false)) false (Text " more ")
              (mkWalk "Some" false true)
  = mkWalk "Some more" false true.
Proof.
  apply (X5_other_parent_text "div" (Some "body") false false " more "
           (mkWalk "Some" false true)).
  - intros H. repeat (apply elem_of_cons in H as [H|H]; [discriminate H|]).
    by apply elem_of_nil in H.
  - reflexivity.
Defined.

Lemma X11_second_delivery_ignored_witness :
  onResponse (Sample.env []) "/tmp/webscraper1" Sample.pageA
    (onResponse (Sample.env []) "/tmp/webscraper1" Sample.pageA Cases.fresh)
  = onResponse (Sample.env []) "/tmp/webscraper1" Sample.pageA Cases.fresh.
Proof.
  apply (X11_second_delivery_ignored (Sample.env []) "/tmp/webscraper1"
           Sample.pageA Sample.pageA Cases.fresh).
  reflexivity.
Defined.

Lemma X12_failed_page_not_retried_witness :
  (onResponse Cases.rejecting "/tmp/webscraper1" Sample.pageA
     (NewScraper true false, [])).2
    = (createPDF Cases.rejecting (NewScraper true false)
         (tmpFile Cases.rejecting "/tmp/webscraper1" Sample.pageA)
         (Body Sample.pageA) []).2
      ++ [Remove (tmpFile Cases.rejecting "/tmp/webscraper1" Sample.pageA)]
  /\ pdfs (onResponse Cases.rejecting "/tmp/webscraper1" Sample.pageA
             (NewScraper true false, [])).1 = pdfs (NewScraper true false)
  /\ keyOf Cases.rejecting Sample.pageA
       ∈ visited (onResponse Cases.rejecting "/tmp/webscraper1" Sample.pageA
                    (NewScraper true false, [])).1
  /\ (forall r', keyOf Cases.rejecting r' = keyOf Cases.rejecting Sample.pageA ->
        onResponse Cases.rejecting "/tmp/webscraper1" r'
          (onResponse Cases.rejecting "/tmp/webscraper1" Sample.pageA
             (NewScraper true false, []))
        = onResponse Cases.rejecting "/tmp/webscraper1" Sample.pageA
            (NewScraper true false, [])).
Proof.
  apply (X12_failed_page_not_retried Cases.rejecting "/tmp/webscraper1" Sample.pageA
           (NewScraper true false) [] ErrStripHTML).
  - apply not_elem_of_empty.
  - reflexivity.
Defined.

Lemma X15_zip_complete_on_success_witness :
  Forall2 (fun kv e => exists u, url_Parse (Sample.env []) kv.1 = Some u /\
                                 e = (pdfName u, kv.2))
          (rangeOrder (Sample.env []) (pdfs Sample.twoPdfs))
          (createZip (Sample.env []) Sample.twoPdfs "out/example.com.zip" []).1.2
  /\ (createZip (Sample.env []) Sample.twoPdfs "out/example.com.zip" []).2
     = [] ++ Create "out/example.com.zip" ::
         flat_map entryOps
           (createZip (Sample.env []) Sample.twoPdfs "out/example.com.zip" []).1.2.
Proof.
  apply (X15_zip_complete_on_success (Sample.env []) Sample.twoPdfs
           "out/example.com.zip" []).
  vm_compute. reflexivity.
Defined.

Lemma X18_success_means_full_archive_witness :
  0 < size (pdfs (ScrapeAndSave (Sample.env [Sample.rootResponse])
                    (NewScraper true false)
                    "http://example.com/" "out/example.com.zip" []).1.2)
  /\ exists cops archive,
       Forall (fun op => isCallbackOp op = true) cops /\
       Forall2 (fun kv e => exists u,
                   url_Parse (Sample.env [Sample.rootResponse]) kv.1 = Some u /\
                   e = (pdfName u, kv.2))
               (rangeOrder (Sample.env [Sample.rootResponse])
                  (pdfs (ScrapeAndSave (Sample.env [Sample.rootResponse])
                           (NewScraper true false)
                           "http://example.com/" "out/example.com.zip" []).1.2))
               archive /\
       (ScrapeAndSave (Sample.env [Sample.rootResponse]) (NewScraper true false)
                      "http://example.com/" "out/example.com.zip" []).2 =
         [] ++ MkdirAll (filepath_Dir (Sample.env [Sample.rootResponse])
                           "out/example.com.zip") :: MkdirTemp :: cops ++
           Create "out/example.com.zip" :: flat_map entryOps archive ++
           [RemoveAll (tempDir (Sample.env [Sample.rootResponse])
                         ([] ++ [MkdirAll (filepath_Dir (Sample.env [Sample.rootResponse])
                                             "out/example.com.zip")]))].
Proof.
  apply (X18_success_means_full_archive (Sample.env [Sample.rootResponse])
           (NewScraper true false) "http://example.com/" "out/example.com.zip" []).
  vm_compute. reflexivity.
Defined.

Lemma X20_parse_failure_witness :
  createPDF Cases.rejecting (NewScraper true false)
    (tmpFile Cases.rejecting "/tmp/webscraper1" Sample.pageA) (Body Sample.pageA) []
    = (Err ErrStripHTML, [])
  /\ onResponse Cases.rejecting "/tmp/webscraper1" Sample.pageA
       (NewScraper true false, []) =
       (mkScraper ({[keyOf Cases.rejecting Sample.pageA]} ∪ visited (NewScraper true false))
                  (pdfs (NewScraper true false))
                  (stripHTML (NewScraper true false)) (clean (NewScraper true false)),
        [] ++ [Remove (tmpFile Cases.rejecting "/tmp/webscraper1" Sample.pageA)]).
Proof.
  apply (X20_parse_failure Cases.rejecting "/tmp/webscraper1" Sample.pageA
           (NewScraper true false) []).
  - reflexivity.
  - reflexivity.
  - apply not_elem_of_empty.
Defined.

Lemma Sample_twoPdfs_size : 0 < size (pdfs Sample.twoPdfs).
Proof.
  unfold Sample.twoPdfs. simpl.
  rewrite map_size_insert_None; [lia|].
  by rewrite lookup_insert_ne.
Defined.

Lemma X21_held_artifacts_are_archived_witness :
  (ScrapeAndSave (Sample.env []) Sample.twoPdfs
                 "http://example.com/" "out/example.com.zip" []).1.2 = Sample.twoPdfs
  /\ exists zops,
       (ScrapeAndSave (Sample.env []) Sample.twoPdfs
                      "http://example.com/" "out/example.com.zip" []).2 =
         [] ++ MkdirAll (filepath_Dir (Sample.env []) "out/example.com.zip") ::
           MkdirTemp :: Create "out/example.com.zip" :: zops ++
           [RemoveAll (tempDir (Sample.env [])
                         ([] ++ [MkdirAll (filepath_Dir (Sample.env [])
                                             "out/example.com.zip")]))].
Proof.
  apply (X21_held_artifacts_are_archived (Sample.env []) Sample.twoPdfs
           "http://example.com/" "out/example.com.zip" [] Sample.urlRoot).
  - reflexivity.
  - reflexivity.
  - reflexivity.
  - reflexivity.
  - apply Sample_twoPdfs_size.
Defined.

Lemma X22_name_is_one_component_witness :
  hasByte slash (pdfName (mkURL "https" "example.com" "/docs/a/" "")) = false.
Proof.
  apply (X22_name_is_one_component (mkURL "https" "example.com" "/docs/a/" "")).
  reflexivity.
Defined.

(** X23: however the steps of concurrently running callbacks interleave,
    every URL whose assignment to [pdfs] has completed was marked visited
    and had [createPDF] called before; unless two assignments to the plain
    map have overlapped, this holds of every key of [pdfs]. *)
Theorem X23_recorded_was_rendered
    (E : Env) (tmpDir : string) (rs : list Response) (c : Config) :
  rtc (step E tmpDir) (start rs) c ->
  (forall u, u ∈ recorded c -> u ∈ rendered c /\ u ∈ visitedSet c)
  /\ (forall m, pdfMap c = Intact m ->
       forall u, is_Some (m !! u) -> u ∈ rendered c /\ u ∈ visitedSet c).
Proof.
  intros Hr.
  apply reachable_Inv in Hr as [Hg Ho Huq Hrn Hrd Hc Hcd Hp Hw Hx].
  assert (Hrec : forall u, u ∈ recorded c -> u ∈ rendered c /\ u ∈ visitedSet c).
  { intros u Hu. apply Hc in Hu as (i & cl & Hi & Hst & <-). split.
    - apply Hrn. exists i, cl. split; [done|]. split; [|done].
      unfold afterRender. by rewrite Hst.
    - eapply Hg; [done|]. by rewrite Hst. }
  split; [done|]. intros m Hm u Hu. by apply Hrec, (Hp m Hm).
Qed.

Lemma X23_recorded_was_rendered_witness :
  (forall u, u ∈ recorded Sample.ranTwice ->
             u ∈ rendered Sample.ranTwice /\ u ∈ visitedSet Sample.ranTwice)
  /\ (forall m, pdfMap Sample.ranTwice = Intact m ->
       forall u, is_Some (m !! u) ->
                 u ∈ rendered Sample.ranTwice /\ u ∈ visitedSet Sample.ranTwice).
Proof.
  apply (X23_recorded_was_rendered (Sample.env []) "/tmp/webscraper1"
           [Sample.pageA; Sample.pageA] Sample.ranTwice).
  apply Sample_run.
Defined.
